(** * MinesGame: a shallow embedding of [contracts/contracts/MinesGame.sol]

    The contract is compiled with Solidity ^0.8.19, so every arithmetic
    operation is checked: an overflow or underflow does not wrap, it aborts
    the call with [Panic(0x11)], an out-of-range array index aborts it with
    [Panic(0x32)], and a failed [require] aborts it with its reason string.
    An aborted call leaves the storage of the contract untouched.

    Integers are modelled as [Z] with their range checks written out,
    addresses as [Z], storage arrays as lists read and written by index, the
    [games] mapping as a [gmap] read with the default (zero) record. *)

From Stdlib Require Import ZArith Lia String.
From stdpp Require Import base option list gmap.

Local Open Scope Z_scope.

(** * Keccak-256, the hash behind [keccak256(abi.encodePacked(...))] *)

Module Keccak.

Definition mask64 : Z := 2 ^ 64 - 1.

Definition rotl64 (x : Z) (n : Z) : Z :=
  Z.land (Z.lor (Z.shiftl x n) (Z.shiftr x (64 - n))) mask64.

(** The 25 lanes of the state are kept in a list, lane (x, y) at
    position [x + 5 * y]. *)
Definition lane (A : list Z) (i : nat) : Z := nth i A 0.

Definition round_constants : list Z :=
  [ 0x0000000000000001; 0x0000000000008082; 0x800000000000808A;
    0x8000000080008000; 0x000000000000808B; 0x0000000080000001;
    0x8000000080008081; 0x8000000000008009; 0x000000000000008A;
    0x0000000000000088; 0x0000000080008009; 0x000000008000000A;
    0x000000008000808B; 0x800000000000008B; 0x8000000000008089;
    0x8000000000008003; 0x8000000000008002; 0x8000000000000080;
    0x000000000000800A; 0x800000008000000A; 0x8000000080008081;
    0x8000000000008080; 0x0000000080000001; 0x8000000080008008 ].

Definition rho_offsets : list Z :=
  [  0;  1; 62; 28; 27;
    36; 44;  6; 55; 20;
     3; 10; 43; 25; 39;
    41; 45; 15; 21;  8;
    18;  2; 61; 56; 14 ].

Definition theta (A : list Z) : list Z :=
  let C := map (fun x =>
              Z.lxor (lane A x)
                (Z.lxor (lane A (x + 5))
                   (Z.lxor (lane A (x + 10))
                      (Z.lxor (lane A (x + 15)) (lane A (x + 20))))))
               (seq 0 5) in
  let D := map (fun x =>
              Z.lxor (lane C ((x + 4) mod 5)) (rotl64 (lane C ((x + 1) mod 5)) 1))
               (seq 0 5) in
  map (fun i => Z.lxor (lane A i) (lane D (i mod 5))) (seq 0 25).

Definition rho_pi (A : list Z) : list Z :=
  map (fun j =>
         let X := (j mod 5)%nat in
         let Y := (j / 5)%nat in
         let x := ((X + 3 * Y) mod 5)%nat in
         rotl64 (lane A (x + 5 * X)) (lane rho_offsets (x + 5 * X)))
      (seq 0 25).

Definition chi (B : list Z) : list Z :=
  map (fun j =>
         let x := (j mod 5)%nat in
         let y := (j / 5)%nat in
         Z.lxor (lane B j)
           (Z.land (Z.lxor (lane B ((x + 1) mod 5 + 5 * y)) mask64)
                   (lane B ((x + 2) mod 5 + 5 * y))))
      (seq 0 25).

Definition iota (rc : Z) (A : list Z) : list Z :=
  match A with
  | [] => []
  | a :: A' => Z.lxor a rc :: A'
  end.

Definition round (A : list Z) (rc : Z) : list Z :=
  iota rc (chi (rho_pi (theta A))).

Definition keccak_f (A : list Z) : list Z :=
  fold_left round round_constants A.

(** Eight bytes, least significant first, to a lane and back. *)
Fixpoint le_to_lane (bs : list Z) : Z :=
  match bs with
  | [] => 0
  | b :: bs' => b + 256 * le_to_lane bs'
  end.

Fixpoint lane_to_le (n : nat) (x : Z) : list Z :=
  match n with
  | O => []
  | S n' => (x mod 256) :: lane_to_le n' (x / 256)
  end.

Definition rate : nat := 136.

(** Keccak padding (the original 0x01 ... 0x80, not the SHA-3 one). *)
Definition pad (msg : list Z) : list Z :=
  let q := (rate - (length msg) mod rate)%nat in
  if (q =? 1)%nat then msg ++ [0x81]
  else msg ++ [0x01] ++ repeat 0 (q - 2) ++ [0x80].

Fixpoint lanes_of (n : nat) (bs : list Z) : list Z :=
  match n with
  | O => []
  | S n' => le_to_lane (firstn 8 bs) :: lanes_of n' (skipn 8 bs)
  end.

Definition absorb_block (A : list Z) (block : list Z) : list Z :=
  let L := lanes_of 17 block in
  keccak_f (map (fun i => Z.lxor (lane A i) (lane L i)) (seq 0 25)).

Fixpoint absorb (blocks : nat) (A : list Z) (bs : list Z) : list Z :=
  match blocks with
  | O => A
  | S n => absorb n (absorb_block A (firstn rate bs)) (skipn rate bs)
  end.

Definition digest (msg : list Z) : list Z :=
  let p := pad msg in
  let A := absorb (length p / rate) (repeat 0 25%nat) p in
  concat (map (lane_to_le 8) (firstn 4 A)).

(** [uint256(keccak256(msg))]: the 32 bytes of the digest read as a
    big-endian number. *)
Definition keccak256 (msg : list Z) : Z :=
  fold_left (fun acc b => acc * 256 + b) (digest msg) 0.

End Keccak.

(** * Outcomes of a call *)

(** A call returns, or aborts with a [require] reason, with a [Panic] code
    (0x11: checked arithmetic, 0x32: array index out of bounds), because the
    gas of the transaction is used up, or because the payee of a [transfer]
    did not take the value. *)
Inductive outcome (A : Type) : Type :=
| Ok (a : A)
| Revert (reason : string)
| Panic (code : Z)
| OutOfGas
| TransferFailed.

Arguments Ok {A} a.
Arguments Revert {A} reason.
Arguments Panic {A} code.
Arguments OutOfGas {A}.
Arguments TransferFailed {A}.

#[global] Instance outcome_bind : MBind outcome := fun A B k c =>
  match c with
  | Ok a => k a
  | Revert r => Revert r
  | Panic code => Panic code
  | OutOfGas => OutOfGas
  | TransferFailed => TransferFailed
  end.

Definition require (cond : bool) (reason : string) : outcome unit :=
  if cond then Ok tt else Revert reason.

Definition ARITHMETIC : Z := 0x11.
Definition OUT_OF_BOUNDS : Z := 0x32.

Definition uint8_max : Z := 2 ^ 8 - 1.
Definition uint256_max : Z := 2 ^ 256 - 1.

(** Checked arithmetic of an unsigned type with largest value [max]. *)
Definition checked_add (max a b : Z) : outcome Z :=
  if a + b <=? max then Ok (a + b) else Panic ARITHMETIC.

Definition checked_sub (a b : Z) : outcome Z :=
  if b <=? a then Ok (a - b) else Panic ARITHMETIC.

Definition checked_mul (max a b : Z) : outcome Z :=
  if a * b <=? max then Ok (a * b) else Panic ARITHMETIC.

(** [arr[i]] *)
Definition index {A : Type} (arr : list A) (i : Z) : outcome A :=
  match arr !! Z.to_nat i with
  | Some a => Ok a
  | None => Panic OUT_OF_BOUNDS
  end.

(** * Data model *)

Record Game : Type := mkGame {
  player : Z;
  betAmount : Z;
  totalMines : Z;
  revealedSafeTiles : Z;
  revealedTiles : list bool;
  mineLocations : list Z;
  isActive : bool
}.

Record State : Type := mkState {
  games : gmap Z Game;
  sharedPoolBalance : Z
}.

(** What a mapping returns at a key that was never written. *)
Definition no_game : Game :=
  mkGame 0 0 0 0 [] [] false.

Definition game_of (st : State) (who : Z) : Game :=
  default no_game (games st !! who).

Definition set_game (st : State) (who : Z) (g : Game) : State :=
  mkState (<[who := g]> (games st)) (sharedPoolBalance st).

Definition set_pool (st : State) (pool : Z) : State :=
  mkState (games st) pool.

(** The constructor leaves everything zero. *)
Definition deployed : State := mkState ∅ 0.

Inductive Event : Type :=
| GameStarted (who : Z) (bet : Z) (mineCount : Z)
| TileRevealed (who : Z) (tileIndex : Z) (isMine : bool)
| GameWon (who : Z) (winnings : Z)
| GameLost (who : Z).

(** What a call does to the outside: the events it emits and the value it
    transfers, in program order. *)
Inductive Effect : Type :=
| Emit (e : Event)
| Transfer (to : Z) (amount : Z).

(** * calculateWinnings *)

(** [(25 - totalMines) * revealedSafeTiles / 25]: both variables are
    [uint8] and the literals take their type, so the subtraction, the
    product and the quotient are computed in [uint8] with checked
    arithmetic; only the result is widened to the [uint256 multiplier]. *)
Definition calculateWinnings (betAmount totalMines revealedSafeTiles : Z) : outcome Z :=
  if revealedSafeTiles =? 0 then Ok 0
  else
    safe ← checked_sub 25 totalMines;
    scaled ← checked_mul uint8_max safe revealedSafeTiles;
    let multiplier := scaled / 25 in
    product ← checked_mul uint256_max betAmount multiplier;
    Ok (product / 100).

(** * The two linear scans of [mineLocations] *)

(** [for (j = from; j < from + count; j++) if (arr[j] == v) { found; break; }]
    is the inner loop of [startGame] (with [count = i]) and the mine check
    of [revealTile] (with [count = game.totalMines]). *)
Fixpoint scan (arr : list Z) (v : Z) (from count : nat) : outcome bool :=
  match count with
  | O => Ok false
  | S count' =>
      match arr !! from with
      | None => Panic OUT_OF_BOUNDS
      | Some m => if m =? v then Ok true else scan arr v (S from) count'
      end
  end.

(** * startGame *)

Fixpoint be_bytes (n : nat) (x : Z) : list Z :=
  match n with
  | O => []
  | S n' => be_bytes n' (x / 256) ++ [x mod 256]
  end.

(** [abi.encodePacked(block.timestamp, msg.sender, i)]: 32 + 20 + 1 bytes. *)
Definition encodePacked (timestamp sender : Z) (i : nat) : list Z :=
  be_bytes 32 timestamp ++ be_bytes 20 sender ++ be_bytes 1 (Z.of_nat i).

(** * What the contract takes from its surroundings *)

(** The hash, the gas schedule and the payees are parameters of the
    development: the general results hold for every environment, the
    concrete runs below use [local_node].

    Gas is counted in turns of the mine-placement loop. [finish_gas n] is
    what the rest of a [startGame] with [n] mines costs in that unit once
    the loop is done: writing the record, updating the pool, the event.
    [can_receive a] tells whether a [transfer] to address [a] goes through;
    it does for an externally owned account and fails for a contract that
    has no payable receive function or needs more than the stipend. *)
Record Env : Type := mkEnv {
  keccak256 : list Z -> Z;
  finish_gas : Z -> nat;
  can_receive : Z -> bool
}.

(** Spending [cost] of the [gas] that is left. *)
Definition charge (gas cost : nat) : outcome nat :=
  if (cost <=? gas)%nat then Ok (gas - cost)%nat else OutOfGas.

Section Contract.

Variable env : Env.

(** [payable(to).transfer(amount)]: the whole call aborts when the payee does
    not take the value. The contract holds at least the tracked pool, so the
    amount itself is always there. *)
Definition transfer (to : Z) : outcome unit :=
  if can_receive env to then Ok tt else TransferFailed.

(** [uint8(uint256(keccak256(...)) % 25)] *)
Definition draw (timestamp sender : Z) (i : nat) : Z :=
  (keccak256 env (encodePacked timestamp sender i) mod 25) mod 256.

(** The [do { ... } while (!locationValid)] of slot [i]. Every turn of the
    loop costs gas; [gas] counts the turns the transaction can still pay
    for. The hashed data does not change between turns. *)
Fixpoint draw_location (gas : nat) (timestamp sender : Z) (i : nat)
         (mineLocations : list Z) : outcome (Z * nat) :=
  match gas with
  | O => OutOfGas
  | S gas' =>
      let mineLocation := draw timestamp sender i in
      found ← scan mineLocations mineLocation 0 i;
      if found : bool
      then draw_location gas' timestamp sender i mineLocations
      else Ok (mineLocation, gas')
  end.

(** [for (uint8 i = ...; i < numberOfMines; i++)], with [left] slots still
    to fill. *)
Fixpoint place_mines (left : nat) (i : nat) (gas : nat) (timestamp sender : Z)
         (mineLocations : list Z) : outcome (list Z * nat) :=
  match left with
  | O => Ok (mineLocations, gas)
  | S left' =>
      r ← draw_location gas timestamp sender i mineLocations;
      place_mines left' (S i) (snd r) timestamp sender
                  (<[i := fst r]> mineLocations)
  end.

(** After the loop the call still has to pay for writing the record,
    updating the pool and the event: [charge]. *)
Definition startGame (gas : nat) (st : State) (timestamp sender value : Z)
           (numberOfMines : Z) : outcome (State * list Effect) :=
  require (0 <? value) "Bet amount must be greater than 0";;
  require ((1 <=? numberOfMines) && (numberOfMines <=? 24))
          "Mines must be between 1 and 24";;
  require (negb (isActive (game_of st sender)))
          "Player already has an active game";;
  let mineLocations := replicate (Z.to_nat numberOfMines) 0 in
  let revealedTiles := replicate 25 false in
  placed ← place_mines (Z.to_nat numberOfMines) 0 gas timestamp sender
                        mineLocations;
  charge (snd placed) (finish_gas env numberOfMines);;
  let game := mkGame sender value numberOfMines 0 revealedTiles (fst placed) true in
  pool ← checked_add uint256_max (sharedPoolBalance st) value;
  Ok (set_pool (set_game st sender game) pool,
      [Emit (GameStarted sender value numberOfMines)]).

(** * revealTile *)

Definition revealTile (st : State) (sender : Z) (tileIndex : Z)
  : outcome (State * list Effect) :=
  require (tileIndex <? 25) "Invalid tile index";;
  require (isActive (game_of st sender)) "No active game";;
  revealed ← index (revealedTiles (game_of st sender)) tileIndex;
  require (negb revealed) "Tile already revealed";;
  let game := game_of st sender in
  let tiles := <[Z.to_nat tileIndex := true]> (revealedTiles game) in
  isMine ← scan (mineLocations game) tileIndex 0 (Z.to_nat (totalMines game));
  if isMine : bool
  then
    Ok (set_game st sender
          (mkGame (player game) (betAmount game) (totalMines game)
                  (revealedSafeTiles game) tiles (mineLocations game) false),
        [Emit (TileRevealed sender tileIndex true); Emit (GameLost sender)])
  else
    safe ← checked_add uint8_max (revealedSafeTiles game) 1;
    Ok (set_game st sender
          (mkGame (player game) (betAmount game) (totalMines game)
                  safe tiles (mineLocations game) (isActive game)),
        [Emit (TileRevealed sender tileIndex false)]).

(** * cashOut *)

(** The [transfer] comes after the storage writes in the source; when it
    fails they are undone with the rest of the call, so the model tries it
    before building the new storage. *)
Definition cashOut (st : State) (sender : Z) : outcome (State * list Effect) :=
  let game := game_of st sender in
  require (isActive game) "No active game";;
  require (0 <? revealedSafeTiles game) "Must reveal at least one safe tile";;
  winnings ← calculateWinnings (betAmount game) (totalMines game)
                                (revealedSafeTiles game);
  wanted ← checked_add uint256_max winnings (betAmount game);
  winnings ← (if sharedPoolBalance st <? wanted
               then checked_sub (sharedPoolBalance st) (betAmount game)
               else Ok winnings);
  paid ← checked_add uint256_max (betAmount game) winnings;
  pool ← checked_sub (sharedPoolBalance st) paid;
  transfer sender;;
  Ok (set_pool
        (set_game st sender
           (mkGame (player game) (betAmount game) (totalMines game)
                   (revealedSafeTiles game) (revealedTiles game)
                   (mineLocations game) false))
        pool,
      [Transfer sender paid; Emit (GameWon sender winnings)]).

(** * The house functions *)

Definition addHouseFunds (st : State) (value : Z) : outcome (State * list Effect) :=
  pool ← checked_add uint256_max (sharedPoolBalance st) value;
  Ok (set_pool st pool, []).

Definition withdrawHouseFunds (st : State) (sender : Z)
  : outcome (State * list Effect) :=
  transfer sender;;
  Ok (set_pool st 0, [Transfer sender (sharedPoolBalance st)]).

(** * Transactions *)

Inductive Call : Type :=
| StartGame (gas : nat) (timestamp value : Z) (numberOfMines : Z)
| RevealTile (tileIndex : Z)
| CashOut
| AddHouseFunds (value : Z)
| WithdrawHouseFunds.

Definition call (st : State) (sender : Z) (c : Call) : outcome (State * list Effect) :=
  match c with
  | StartGame gas timestamp value numberOfMines =>
      startGame gas st timestamp sender value numberOfMines
  | RevealTile tileIndex => revealTile st sender tileIndex
  | CashOut => cashOut st sender
  | AddHouseFunds value => addHouseFunds st value
  | WithdrawHouseFunds => withdrawHouseFunds st sender
  end.

(** Storage after the transaction: what the call wrote if it returned,
    the storage before it if it aborted. *)
Definition exec (st : State) (sender : Z) (c : Call) : State :=
  match call st sender c with
  | Ok r => fst r
  | _ => st
  end.

(** The arguments the ABI lets through. *)
Definition well_typed (c : Call) : Prop :=
  match c with
  | StartGame _ timestamp value numberOfMines =>
      0 <= timestamp <= uint256_max /\ 0 <= value <= uint256_max /\
      0 <= numberOfMines <= uint8_max
  | RevealTile tileIndex => 0 <= tileIndex <= uint8_max
  | AddHouseFunds value => 0 <= value <= uint256_max
  | CashOut | WithdrawHouseFunds => True
  end.

Inductive reachable : State -> Prop :=
| reachable_deployed : reachable deployed
| reachable_exec st sender c :
    reachable st -> well_typed c -> reachable (exec st sender c).

(** A sequence of transactions, each with its sender. *)
Definition run (st : State) (txs : list (Z * Call)) : State :=
  fold_left (fun st tx => exec st (fst tx) (snd tx)) txs st.

(** The values the slots [0 .. n-1] hash to. *)
Definition draws (timestamp sender : Z) (n : nat) : list Z :=
  map (draw timestamp sender) (seq 0 n).

(** The record [startGame] writes. *)
Definition fresh_game (timestamp sender value numberOfMines : Z) : Game :=
  mkGame sender value numberOfMines 0 (replicate 25 false)
         (draws timestamp sender (Z.to_nat numberOfMines)) true.

(** The ways a call can violate a precondition, each with the reason of
    the first [require] that fails. *)
Inductive violation (st : State) (sender : Z) : Call -> string -> Prop :=
| zero_stake gas timestamp numberOfMines :
    violation st sender (StartGame gas timestamp 0 numberOfMines)
              "Bet amount must be greater than 0"
| mines_out_of_range gas timestamp value numberOfMines :
    0 < value -> ~ (1 <= numberOfMines <= 24) ->
    violation st sender (StartGame gas timestamp value numberOfMines)
              "Mines must be between 1 and 24"
| already_active gas timestamp value numberOfMines :
    0 < value -> 1 <= numberOfMines <= 24 ->
    isActive (game_of st sender) = true ->
    violation st sender (StartGame gas timestamp value numberOfMines)
              "Player already has an active game"
| tile_out_of_range tileIndex :
    25 <= tileIndex ->
    violation st sender (RevealTile tileIndex) "Invalid tile index"
| reveal_without_game tileIndex :
    tileIndex < 25 -> isActive (game_of st sender) = false ->
    violation st sender (RevealTile tileIndex) "No active game"
| tile_already_revealed tileIndex :
    0 <= tileIndex < 25 -> isActive (game_of st sender) = true ->
    revealedTiles (game_of st sender) !! Z.to_nat tileIndex = Some true ->
    violation st sender (RevealTile tileIndex) "Tile already revealed"
| cash_out_without_game :
    isActive (game_of st sender) = false ->
    violation st sender CashOut "No active game"
| cash_out_nothing_revealed :
    isActive (game_of st sender) = true ->
    revealedSafeTiles (game_of st sender) = 0 ->
    violation st sender CashOut "Must reveal at least one safe tile".

End Contract.

(** * Records after a call *)

(** The record after a reveal that hit a mine, and after a safe one. *)
Definition lost_game (g : Game) (tileIndex : Z) : Game :=
  mkGame (player g) (betAmount g) (totalMines g) (revealedSafeTiles g)
         (<[Z.to_nat tileIndex := true]> (revealedTiles g)) (mineLocations g) false.

Definition advanced_game (g : Game) (tileIndex : Z) : Game :=
  mkGame (player g) (betAmount g) (totalMines g) (revealedSafeTiles g + 1)
         (<[Z.to_nat tileIndex := true]> (revealedTiles g)) (mineLocations g) (isActive g).

(** The record after a cash-out. *)
Definition closed_game (g : Game) : Game :=
  mkGame (player g) (betAmount g) (totalMines g) (revealedSafeTiles g)
         (revealedTiles g) (mineLocations g) false.

(** * The counter invariant *)

(** Tile [i] is revealed and is not a mine. *)
Definition safe_and_revealed (g : Game) (i : nat) : Prop :=
  revealedTiles g !! i = Some true /\ Z.of_nat i ∉ mineLocations g.

#[global] Instance safe_and_revealed_dec g i : Decision (safe_and_revealed g i).
Proof. unfold safe_and_revealed. apply _. Defined.

(** The number of indices in [0, 25) that are revealed and are not mines. *)
Definition safe_revealed (g : Game) : Z :=
  Z.of_nat (length (filter (safe_and_revealed g) (seq 0 25))).

(** The shape [startGame] gives a record, kept while the game is active. *)
Definition well_formed (g : Game) : Prop :=
  length (revealedTiles g) = 25%nat /\
  Z.to_nat (totalMines g) = length (mineLocations g).

Definition game_inv (g : Game) : Prop :=
  revealedSafeTiles g = safe_revealed g /\
  (isActive g = true -> well_formed g).

(** * Concrete runs *)

(** A local node: the real hash, 200 loop turns' worth of gas for the rest
    of a start, and only externally owned accounts. *)
Definition local_node : Env :=
  mkEnv Keccak.keccak256 (fun _ => 200%nat) (fun _ => true).

(** The first account of a local Hardhat node, and block timestamps. *)
Definition alice : Z := 0xf39Fd6e51aad88F6F4ce6aB8827279cffFb92266.

(** At this timestamp slots 0 and 1 of [alice] both hash to 13. *)
Definition colliding_timestamp : Z := 1700000008.

(** At this timestamp the slots 0, 1, 2 of [alice] hash to 16, 5, 5. *)
Definition scenario_A_timestamp : Z := 1700000000.

(** At this timestamp the slots 0, 1, 2 of [alice] hash to 24, 10, 19. *)
Definition quiet_timestamp : Z := 1700000001.

Definition reveals (tiles : list Z) : list (Z * Call) :=
  map (fun t => (alice, RevealTile t)) tiles.

(** [alice] stakes 100 on 3 mines and reveals five safe tiles; the pool is
    then withdrawn and topped up with 50. *)
Definition insolvent_txs : list (Z * Call) :=
  (alice, StartGame 1000 quiet_timestamp 100 3)
    :: reveals [0; 1; 2; 3; 4]
    ++ [(alice, WithdrawHouseFunds); (alice, AddHouseFunds 50)].

Definition insolvent_state : State := run local_node deployed insolvent_txs.

(** [alice] stakes 100 on one mine and reveals eleven safe tiles. *)
Definition eleven_safe_txs : list (Z * Call) :=
  (alice, StartGame 1000 quiet_timestamp 100 1)
    :: reveals [0; 1; 2; 3; 4; 5; 6; 7; 8; 9; 10].

Definition eleven_safe_state : State := run local_node deployed eleven_safe_txs.

(** [alice] has staked 100 on 3 mines (at 24, 10 and 19). *)
Definition started_state : State :=
  exec local_node deployed alice (StartGame 1000 quiet_timestamp 100 3).

(** ... and has revealed tile 0, which is safe. *)
Definition one_safe_state : State :=
  exec local_node started_state alice (RevealTile 0).

(** A game with 24 mines whose only safe tile, 24, is revealed, over a pool
    that holds its stake. *)
Definition stake_only_state : State :=
  mkState
    {[ alice := mkGame alice 100 24 1 (<[24%nat := true]> (replicate 25 false))
                       (seqZ 0 24) true ]}
    100.

(** * Value in and out of the contract *)

(** [msg.value] of a call: only [startGame] and [addHouseFunds] are
    payable. *)
Definition received (c : Call) : Z :=
  match c with
  | StartGame _ _ value _ => value
  | AddHouseFunds value => value
  | RevealTile _ | CashOut | WithdrawHouseFunds => 0
  end.

(** The total a call pays out. *)
Fixpoint transferred (effects : list Effect) : Z :=
  match effects with
  | [] => 0
  | Transfer _ amount :: effects' => amount + transferred effects'
  | Emit _ :: effects' => transferred effects'
  end.

(** * The record of a player who has started a game *)

(** What [startGame] establishes for the record at key [who] and every later
    call keeps: the owner, a positive bet, the board and the mines; and while
    the game is active, no revealed tile is a mine. *)
Definition played (who : Z) (g : Game) : Prop :=
  player g = who /\
  0 < betAmount g <= uint256_max /\
  1 <= totalMines g <= 24 /\
  length (revealedTiles g) = 25%nat /\
  Z.to_nat (totalMines g) = length (mineLocations g) /\
  NoDup (mineLocations g) /\
  (forall m, m ∈ mineLocations g -> 0 <= m < 25) /\
  (isActive g = true ->
   forall i, revealedTiles g !! i = Some true -> Z.of_nat i ∉ mineLocations g).

(** * The views *)

(** [getGameStatus(player)] and [getSharedPoolBalance()]. *)
Definition getGameStatus (st : State) (who : Z) : Game := game_of st who.

Definition getSharedPoolBalance (st : State) : Z := sharedPoolBalance st.

(** * The front end's estimate of the profit *)

(** [calculateCurrentWinnings] of [src/config.js], with a contract instance
    at hand: the contract's [calculateWinnings], and [0n] when there is no
    safe tile or when the call fails. *)
Definition calculateCurrentWinnings (gameData : Game) : Z :=
  if revealedSafeTiles gameData =? 0 then 0
  else
    match calculateWinnings (betAmount gameData) (totalMines gameData)
                            (revealedSafeTiles gameData) with
    | Ok winnings => winnings
    | _ => 0
    end.

(** The profit [fetchAndUpdateState] of the Game component shows for the
    status and the pool balance it has read ([BigInt] arithmetic). *)
Definition liveProfit (status : Game) (poolBalance : Z) : Z :=
  if isActive status then
    let theoreticalProfit := calculateCurrentWinnings status in
    let betAmount := betAmount status in
    let theoreticalPayout := betAmount + theoreticalProfit in
    let effectivePoolBalance := poolBalance - betAmount in
    let actualPayout :=
      if effectivePoolBalance <? theoreticalPayout
      then effectivePoolBalance else theoreticalPayout in
    let actualProfit := actualPayout - betAmount in
    if actualProfit <? 0 then 0 else actualProfit
  else 0.

(** The payout [onCashOut] announces. *)
Definition expectedPayout (game : Game) (poolBalance : Z) : Z :=
  betAmount game + liveProfit game poolBalance.

(** * The net value a run brings into the contract *)

Section Flow.

Variable env : Env.

(** What a transaction brings in less what it pays out; nothing if it
    aborts. *)
Definition flow (st : State) (sender : Z) (c : Call) : Z :=
  match call env st sender c with
  | Ok r => received c - transferred (snd r)
  | _ => 0
  end.

Fixpoint net_flow (st : State) (txs : list (Z * Call)) : Z :=
  match txs with
  | [] => 0
  | tx :: txs' =>
      flow st (fst tx) (snd tx)
      + net_flow (exec env st (fst tx) (snd tx)) txs'
  end.

End Flow.

(** Whether a call is a [startGame]. *)
Definition is_start (c : Call) : bool :=
  match c with
  | StartGame _ _ _ _ => true
  | _ => false
  end.

(** The number of tiles of a record whose flag is set. *)
Definition revealed_count (g : Game) : Z :=
  Z.of_nat (length (filter (fun i : nat => revealedTiles g !! i = Some true) (seq 0 25))).

(** A second account of a local Hardhat node. *)
Definition bob : Z := 0x70997970C51812dc3A010C7d01b50e0d17dc79C8.

(** [alice] has staked 100 on 3 mines and revealed five safe tiles. *)
Definition five_safe_state : State :=
  run local_node deployed
      ((alice, StartGame 1000 quiet_timestamp 100 3) :: reveals [0; 1; 2; 3; 4]).

(** ... and [bob] has added 50 to the pool. *)
Definition topped_up_state : State :=
  exec local_node five_safe_state bob (AddHouseFunds 50).

(** [alice] has staked 100 on 3 mines and stepped on the mine at tile 24. *)
Definition lost_state : State :=
  exec local_node started_state alice (RevealTile 24).

(** A contract without a payable receive function (the address a local
    node gives the first contract it deploys), and a node that has it. *)
Definition vault : Z := 0x5FbDB2315678afecb367f032d93F642f64180aa3.

Definition node_with_vault : Env :=
  mkEnv Keccak.keccak256 (fun _ => 200%nat) (fun a => negb (a =? vault)).

(** [alice] has added 50 to the pool of the deployed contract. *)
Definition funded_state : State :=
  exec node_with_vault deployed alice (AddHouseFunds 50).

(** * Known answers of the hash *)

(** Keccak-256 of the empty string and of "abc". *)
Example keccak256_empty :
  Keccak.keccak256 [] =
  0xc5d2460186f7233c927e7db2dcc703c0e500b653ca82273b7bfad8045d85a470.
Proof. vm_compute. reflexivity. Qed.

Example keccak256_abc :
  Keccak.keccak256 [97; 98; 99] =
  0x4e03657aea45a94fc7d47ba826c8d667c0d1e6e33a64a036ec44f58fa12d6c45.
Proof. vm_compute. reflexivity. Qed.

(** * Reasoning about outcomes *)

Lemma bind_Ok {A B : Type} (c : outcome A) (k : A -> outcome B) (b : B) :
  c ≫= k = Ok b -> exists a, c = Ok a /\ k a = Ok b.
Proof. destruct c; simpl; intros H; try discriminate. eauto. Qed.

Lemma bind_ret {A B : Type} (a : A) (k : A -> outcome B) : Ok a ≫= k = k a.
Proof. reflexivity. Qed.

Lemma require_Ok (cond : bool) (reason : string) (u : unit) :
  require cond reason = Ok u -> cond = true.
Proof. destruct cond; [reflexivity | discriminate]. Qed.

Lemma require_true (reason : string) : require true reason = Ok tt.
Proof. reflexivity. Qed.

Lemma checked_add_Ok (max a b c : Z) :
  checked_add max a b = Ok c -> c = a + b /\ a + b <= max.
Proof.
  unfold checked_add. destruct (Z.leb_spec (a + b) max) as [Hle|Hgt];
    intros Hc; inversion Hc.
  split; [reflexivity | assumption].
Qed.

Lemma checked_add_fits (max a b : Z) :
  a + b <= max -> checked_add max a b = Ok (a + b).
Proof. intros H. unfold checked_add. destruct (Z.leb_spec (a + b) max); [reflexivity | lia]. Qed.

Lemma checked_sub_fits (a b : Z) : b <= a -> checked_sub a b = Ok (a - b).
Proof. intros H. unfold checked_sub. destruct (Z.leb_spec b a); [reflexivity | lia]. Qed.

Lemma checked_sub_underflow (a b : Z) : a < b -> checked_sub a b = Panic ARITHMETIC.
Proof. intros H. unfold checked_sub. destruct (Z.leb_spec b a); [lia | reflexivity]. Qed.

Lemma charge_fits (gas cost : nat) :
  (cost <= gas)%nat -> charge gas cost = Ok (gas - cost)%nat.
Proof. intros H. unfold charge. destruct (Nat.leb_spec cost gas); [reflexivity | lia]. Qed.

Lemma charge_short (gas cost : nat) : (gas < cost)%nat -> charge gas cost = OutOfGas.
Proof. intros H. unfold charge. destruct (Nat.leb_spec cost gas); [lia | reflexivity]. Qed.

Lemma charge_Ok (gas cost left : nat) :
  charge gas cost = Ok left -> (cost <= gas)%nat /\ left = (gas - cost)%nat.
Proof.
  unfold charge. destruct (Nat.leb_spec cost gas); intros Hc; inversion Hc. auto.
Qed.

Lemma checked_mul_fits (max a b : Z) :
  a * b <= max -> checked_mul max a b = Ok (a * b).
Proof. intros H. unfold checked_mul. destruct (Z.leb_spec (a * b) max); [reflexivity | lia]. Qed.

Lemma checked_mul_overflow (max a b : Z) :
  max < a * b -> checked_mul max a b = Panic ARITHMETIC.
Proof. intros H. unfold checked_mul. destruct (Z.leb_spec (a * b) max); [lia | reflexivity]. Qed.

(** Unfold one [bind] whose left side is an equation in the context. *)
Tactic Notation "bind_inv" hyp(H) "as" simple_intropattern(a) simple_intropattern(Ha) :=
  apply bind_Ok in H; destruct H as (a & Ha & H).

(** * The linear scan *)

Lemma scan_in_bounds (arr : list Z) (v : Z) (count from : nat) :
  (from + count <= length arr)%nat ->
  scan arr v from count = Ok (bool_decide (v ∈ take count (drop from arr))).
Proof.
  revert from. induction count as [|count IH]; intros from Hlen; simpl.
  - reflexivity.
  - destruct (arr !! from) as [m|] eqn:Hm.
    2:{ apply lookup_ge_None in Hm. lia. }
    rewrite (drop_S _ _ _ Hm). simpl.
    destruct (Z.eqb_spec m v) as [->|Hne].
    + rewrite bool_decide_eq_true_2; [reflexivity | apply elem_of_cons; by left].
    + rewrite IH by lia. f_equal. apply bool_decide_ext.
      rewrite elem_of_cons. split; [auto | intros [Heq|Hin]; congruence].
Qed.

Lemma scan_all (arr : list Z) (v : Z) :
  scan arr v 0 (length arr) = Ok (bool_decide (v ∈ arr)).
Proof.
  rewrite scan_in_bounds by (simpl; lia).
  rewrite drop_0, firstn_all. reflexivity.
Qed.

Lemma scan_prefix (chosen rest : list Z) (v : Z) :
  scan (chosen ++ rest) v 0 (length chosen) = Ok (bool_decide (v ∈ chosen)).
Proof.
  rewrite scan_in_bounds by (rewrite length_app; simpl; lia).
  rewrite drop_0, take_app_length. reflexivity.
Qed.

Section PlacementFacts.

Variable env : Env.
Variables timestamp sender : Z.

Local Abbreviation slot := (draw env timestamp sender).
Local Abbreviation slots := (draws env timestamp sender).
Local Abbreviation fill gas := (draw_location env gas timestamp sender).
Local Abbreviation place left i gas := (place_mines env left i gas timestamp sender).

Lemma draw_range (i : nat) : 0 <= slot i < 25.
Proof.
  unfold draw.
  pose proof (Z.mod_pos_bound (keccak256 env (encodePacked timestamp sender i)) 25).
  rewrite Z.mod_small; lia.
Qed.

Lemma length_draws (n : nat) : length (slots n) = n.
Proof. unfold draws. rewrite length_map, length_seq. reflexivity. Qed.

Lemma draws_S (n : nat) : slots (S n) = slots n ++ [slot n].
Proof. unfold draws. rewrite seq_S, map_app. reflexivity. Qed.

Lemma draws_range (n : nat) (v : Z) : v ∈ slots n -> 0 <= v < 25.
Proof.
  unfold draws. intros H. apply list_elem_of_fmap in H.
  destruct H as (i & -> & _). apply draw_range.
Qed.

Lemma NoDup_draws_prefix (n m : nat) : NoDup (slots (n + m)) -> NoDup (slots n).
Proof.
  unfold draws. rewrite seq_app, map_app.
  intros H. apply NoDup_app in H. tauto.
Qed.

Lemma NoDup_draws_S (n : nat) : NoDup (slots (S n)) <-> NoDup (slots n) /\ slot n ∉ slots n.
Proof.
  rewrite draws_S, NoDup_app. split.
  - intros (Hnd & Hdisj & _). split; [assumption|]. intros Hin.
    apply (Hdisj _ Hin). apply list_elem_of_singleton. reflexivity.
  - intros (Hnd & Hfree). split; [assumption|]. split.
    + intros x Hx Hx'. apply list_elem_of_singleton in Hx'. subst. contradiction.
    + apply NoDup_singleton.
Qed.

Lemma place_mines_S (left i gas : nat) (locs : list Z) :
  place (S left) i gas locs
  = fill gas i locs ≫= fun r =>
      place left (S i) (snd r) (<[i := fst r]> locs).
Proof. reflexivity. Qed.

(** A slot whose value is already taken is never filled: every turn of
    the loop hashes the same data. *)
Lemma draw_location_taken (i : nat) (chosen rest : list Z) :
  length chosen = i -> slot i ∈ chosen ->
  forall gas, fill gas i (chosen ++ rest) = OutOfGas.
Proof.
  intros <- Hin gas. induction gas as [|gas IH]; simpl; [reflexivity|].
  rewrite scan_prefix.
  rewrite bool_decide_eq_true_2 by assumption. simpl. exact IH.
Qed.

Lemma draw_location_free (i : nat) (chosen rest : list Z) (gas : nat) :
  length chosen = i -> slot i ∉ chosen ->
  fill (S gas) i (chosen ++ rest) = Ok (slot i, gas).
Proof.
  intros <- Hnin. simpl.
  rewrite scan_prefix.
  rewrite bool_decide_eq_false_2 by assumption. reflexivity.
Qed.

Lemma fill_slot (i left : nat) (v : Z) :
  <[i := v]> (slots i ++ replicate (S left) 0) = (slots i ++ [v]) ++ replicate left 0.
Proof.
  rewrite insert_app_r_alt by (rewrite length_draws; lia).
  rewrite length_draws, Nat.sub_diag. simpl. rewrite <- app_assoc. reflexivity.
Qed.

(** The loop fills all slots when the hashed values are pairwise
    distinct and there is gas for one turn per slot. *)
Lemma place_mines_distinct (left i gas : nat) :
  NoDup (slots (i + left)) -> (left <= gas)%nat ->
  place left i gas (slots i ++ replicate left 0)
  = Ok (slots (i + left), (gas - left)%nat).
Proof.
  revert i gas. induction left as [|left IH]; intros i gas Hnd Hgas.
  - simpl. rewrite Nat.add_0_r, app_nil_r, Nat.sub_0_r. reflexivity.
  - destruct gas as [|gas]; [lia|].
    replace (i + S left)%nat with (S i + left)%nat in * by lia.
    assert (Hfree : slot i ∉ slots i).
    { apply NoDup_draws_prefix, NoDup_draws_S in Hnd. tauto. }
    rewrite place_mines_S.
    rewrite draw_location_free by (apply length_draws || assumption).
    rewrite bind_ret. cbn [fst snd]. rewrite fill_slot, <- draws_S.
    apply IH; [assumption | lia].
Qed.

(** The loop never ends when two slots hash to the same value, whatever
    the gas. *)
Lemma place_mines_collision (left i : nat) :
  NoDup (slots i) -> ~ NoDup (slots (i + left)) ->
  forall gas, place left i gas (slots i ++ replicate left 0) = OutOfGas.
Proof.
  revert i. induction left as [|left IH]; intros i Hnd Hdup gas.
  - rewrite Nat.add_0_r in Hdup. contradiction.
  - rewrite place_mines_S.
    destruct (decide (slot i ∈ slots i)) as [Hin|Hnin].
    + rewrite draw_location_taken by (apply length_draws || assumption).
      reflexivity.
    + destruct gas as [|gas]; [reflexivity|].
      rewrite draw_location_free by (apply length_draws || assumption).
      rewrite bind_ret. cbn [fst snd]. rewrite fill_slot, <- draws_S.
      apply IH.
      * apply NoDup_draws_S. auto.
      * replace (S i + left)%nat with (i + S left)%nat by lia. assumption.
Qed.

Lemma draw_location_Ok (gas i : nat) (chosen rest : list Z) (v : Z) (gas' : nat) :
  length chosen = i ->
  fill gas i (chosen ++ rest) = Ok (v, gas') ->
  v = slot i /\ (slot i ∉ chosen) /\ (gas' < gas)%nat.
Proof.
  intros <-. induction gas as [|gas IH]; simpl; [discriminate|].
  rewrite scan_prefix. simpl.
  case_bool_decide as Hin.
  - intros Hrun. destruct (IH Hrun) as (? & ? & ?). repeat split; auto with lia.
  - intros Hrun. inversion Hrun. subst. repeat split; auto with lia.
Qed.

(** What the loop returns, when it returns. *)
Lemma place_mines_Ok (left i gas : nat) (locs : list Z) (gas' : nat) :
  NoDup (slots i) ->
  place left i gas (slots i ++ replicate left 0) = Ok (locs, gas') ->
  locs = slots (i + left) /\ NoDup (slots (i + left)) /\ (gas' + left <= gas)%nat.
Proof.
  revert i gas. induction left as [|left IH]; intros i gas Hnd Hrun.
  - simpl in Hrun. rewrite app_nil_r in Hrun. inversion Hrun. subst.
    rewrite Nat.add_0_r. repeat split; auto with lia.
  - rewrite place_mines_S in Hrun.
    bind_inv Hrun as [v g] Hdraw. cbn [fst snd] in Hrun.
    apply draw_location_Ok in Hdraw; [|apply length_draws].
    destruct Hdraw as (-> & Hfree & Hg).
    rewrite fill_slot, <- draws_S in Hrun.
    apply IH in Hrun.
    + replace (i + S left)%nat with (S i + left)%nat by lia.
      destruct Hrun as (? & ? & ?). repeat split; auto with lia.
    + apply NoDup_draws_S. auto.
Qed.

End PlacementFacts.

(** * Reading the storage *)

Lemma game_of_set_game (st : State) (who : Z) (g : Game) :
  game_of (set_game st who g) who = g.
Proof. unfold game_of, set_game. simpl. rewrite lookup_insert_eq. reflexivity. Qed.

Lemma game_of_set_game_other (st : State) (who other : Z) (g : Game) :
  who <> other -> game_of (set_game st who g) other = game_of st other.
Proof.
  intros Hne. unfold game_of, set_game. simpl.
  rewrite lookup_insert_ne by assumption. reflexivity.
Qed.

Lemma game_of_set_pool (st : State) (pool who : Z) :
  game_of (set_pool st pool) who = game_of st who.
Proof. reflexivity. Qed.

Lemma game_of_deployed (who : Z) : game_of deployed who = no_game.
Proof. reflexivity. Qed.

(** * calculateWinnings *)

(** The result whenever the [uint8] product and the [uint256] product fit. *)
Lemma calculateWinnings_fits (betAmount totalMines revealedSafeTiles : Z) :
  revealedSafeTiles <> 0 -> totalMines <= 25 ->
  (25 - totalMines) * revealedSafeTiles <= uint8_max ->
  betAmount * ((25 - totalMines) * revealedSafeTiles / 25) <= uint256_max ->
  calculateWinnings betAmount totalMines revealedSafeTiles
  = Ok (betAmount * ((25 - totalMines) * revealedSafeTiles / 25) / 100).
Proof.
  intros Hs Hm Hp Hb. unfold calculateWinnings.
  destruct (Z.eqb_spec revealedSafeTiles 0) as [|_]; [contradiction|].
  rewrite checked_sub_fits, bind_ret by lia.
  rewrite checked_mul_fits, bind_ret by assumption.
  rewrite checked_mul_fits, bind_ret by assumption.
  reflexivity.
Qed.

(** The [uint8] product overflows above 255. *)
Lemma calculateWinnings_overflow (betAmount totalMines revealedSafeTiles : Z) :
  totalMines <= 25 -> uint8_max < (25 - totalMines) * revealedSafeTiles ->
  calculateWinnings betAmount totalMines revealedSafeTiles = Panic ARITHMETIC.
Proof.
  intros Hm Hp. unfold calculateWinnings.
  destruct (Z.eqb_spec revealedSafeTiles 0) as [->|_]; [unfold uint8_max in Hp; lia|].
  rewrite checked_sub_fits, bind_ret by lia.
  rewrite checked_mul_overflow by assumption. reflexivity.
Qed.

Lemma calculateWinnings_Ok (betAmount totalMines revealedSafeTiles winnings : Z) :
  calculateWinnings betAmount totalMines revealedSafeTiles = Ok winnings ->
  revealedSafeTiles = 0 /\ winnings = 0 \/
  revealedSafeTiles <> 0 /\ totalMines <= 25 /\
  (25 - totalMines) * revealedSafeTiles <= uint8_max /\
  betAmount * ((25 - totalMines) * revealedSafeTiles / 25) <= uint256_max /\
  winnings = betAmount * ((25 - totalMines) * revealedSafeTiles / 25) / 100.
Proof.
  unfold calculateWinnings.
  destruct (Z.eqb_spec revealedSafeTiles 0) as [->|Hs].
  - intros H. inversion H. left. auto.
  - intros H. right.
    unfold checked_sub, checked_mul in H.
    destruct (Z.leb_spec totalMines 25); [|discriminate].
    rewrite bind_ret in H.
    destruct (Z.leb_spec ((25 - totalMines) * revealedSafeTiles) uint8_max); [|discriminate].
    rewrite bind_ret in H.
    destruct (Z.leb_spec (betAmount * ((25 - totalMines) * revealedSafeTiles / 25)) uint256_max);
      [|discriminate].
    rewrite bind_ret in H. inversion H. auto.
Qed.

(** Where the function returns at [s2] it returns at every smaller [s1],
    with no more winnings. *)
Lemma calculateWinnings_monotone (betAmount totalMines s1 s2 w2 : Z) :
  0 <= betAmount -> 0 <= s1 <= s2 ->
  calculateWinnings betAmount totalMines s2 = Ok w2 ->
  exists w1, calculateWinnings betAmount totalMines s1 = Ok w1 /\ w1 <= w2.
Proof.
  intros Hb Hs H2. apply calculateWinnings_Ok in H2.
  destruct H2 as [(-> & ->) | (Hs2 & Hm & Hp & Hq & ->)].
  - assert (s1 = 0) as -> by lia. exists 0. split; [reflexivity | lia].
  - destruct (Z.eq_dec s1 0) as [->|Hs1].
    + exists 0. split; [reflexivity|].
      apply Z.div_pos; [|lia]. apply Z.mul_nonneg_nonneg; [lia|].
      apply Z.div_pos; [|lia]. apply Z.mul_nonneg_nonneg; lia.
    + assert (Hle : (25 - totalMines) * s1 <= (25 - totalMines) * s2)
        by (apply Z.mul_le_mono_nonneg_l; lia).
      assert (Hdiv : (25 - totalMines) * s1 / 25 <= (25 - totalMines) * s2 / 25)
        by (apply Z.div_le_mono; lia).
      assert (Hmul : betAmount * ((25 - totalMines) * s1 / 25)
                     <= betAmount * ((25 - totalMines) * s2 / 25))
        by (apply Z.mul_le_mono_nonneg_l; lia).
      eexists. split.
      * apply calculateWinnings_fits; lia.
      * apply Z.div_le_mono; lia.
Qed.

(** * startGame *)

Section StartGameFacts.

Variable env : Env.


Lemma startGame_distinct gas st timestamp sender value numberOfMines :
  0 < value -> 1 <= numberOfMines <= 24 ->
  isActive (game_of st sender) = false ->
  NoDup (draws env timestamp sender (Z.to_nat numberOfMines)) ->
  (Z.to_nat numberOfMines + finish_gas env numberOfMines <= gas)%nat ->
  sharedPoolBalance st + value <= uint256_max ->
  startGame env gas st timestamp sender value numberOfMines
  = Ok (set_pool (set_game st sender (fresh_game env timestamp sender value numberOfMines))
                 (sharedPoolBalance st + value),
        [Emit (GameStarted sender value numberOfMines)]).
Proof.
  intros Hv Hm Hact Hnd Hgas Hpool. unfold startGame.
  destruct (Z.ltb_spec 0 value); [|lia].
  destruct (Z.leb_spec 1 numberOfMines); [|lia].
  destruct (Z.leb_spec numberOfMines 24); [|lia].
  rewrite Hact. cbn [andb negb]. rewrite !require_true, !bind_ret.
  change (replicate (Z.to_nat numberOfMines) 0)
    with (draws env timestamp sender 0 ++ replicate (Z.to_nat numberOfMines) 0).
  rewrite place_mines_distinct by (assumption || lia).
  rewrite bind_ret. cbn [fst snd].
  rewrite charge_fits, bind_ret by lia.
  rewrite checked_add_fits, bind_ret by assumption.
  reflexivity.
Qed.

Lemma startGame_collision st timestamp sender value numberOfMines :
  0 < value -> 1 <= numberOfMines <= 24 ->
  isActive (game_of st sender) = false ->
  ~ NoDup (draws env timestamp sender (Z.to_nat numberOfMines)) ->
  forall gas, startGame env gas st timestamp sender value numberOfMines = OutOfGas.
Proof.
  intros Hv Hm Hact Hdup gas. unfold startGame.
  destruct (Z.ltb_spec 0 value); [|lia].
  destruct (Z.leb_spec 1 numberOfMines); [|lia].
  destruct (Z.leb_spec numberOfMines 24); [|lia].
  rewrite Hact. cbn [andb negb]. rewrite !require_true, !bind_ret.
  change (replicate (Z.to_nat numberOfMines) 0)
    with (draws env timestamp sender 0 ++ replicate (Z.to_nat numberOfMines) 0).
  rewrite place_mines_collision; [reflexivity | apply NoDup_nil_2 | assumption].
Qed.

Lemma startGame_Ok gas st timestamp sender value numberOfMines st' effects :
  startGame env gas st timestamp sender value numberOfMines = Ok (st', effects) ->
  0 < value /\ 1 <= numberOfMines <= 24 /\
  isActive (game_of st sender) = false /\
  NoDup (draws env timestamp sender (Z.to_nat numberOfMines)) /\
  sharedPoolBalance st + value <= uint256_max /\
  st' = set_pool (set_game st sender (fresh_game env timestamp sender value numberOfMines))
                 (sharedPoolBalance st + value) /\
  effects = [Emit (GameStarted sender value numberOfMines)].
Proof.
  unfold startGame. intros H.
  bind_inv H as [] Hv. apply require_Ok, Z.ltb_lt in Hv.
  bind_inv H as [] Hm. apply require_Ok, andb_true_iff in Hm. destruct Hm as [H1 H24].
  apply Z.leb_le in H1, H24.
  bind_inv H as [] Hact. apply require_Ok, negb_true_iff in Hact.
  bind_inv H as [locs gas'] Hplace.
  change (replicate (Z.to_nat numberOfMines) 0)
    with (draws env timestamp sender 0 ++ replicate (Z.to_nat numberOfMines) 0) in Hplace.
  apply place_mines_Ok in Hplace; [|apply NoDup_nil_2].
  destruct Hplace as (-> & Hnd & _). simpl in Hnd.
  bind_inv H as left Hcharge.
  bind_inv H as pool Hpool. apply checked_add_Ok in Hpool. destruct Hpool as [-> Hpool].
  inversion H. subst. auto 10.
Qed.

(** A start that returns had gas for one loop turn per mine and for the
    rest of the call. *)
Lemma startGame_Ok_gas gas st timestamp sender value numberOfMines r :
  startGame env gas st timestamp sender value numberOfMines = Ok r ->
  (Z.to_nat numberOfMines + finish_gas env numberOfMines <= gas)%nat.
Proof.
  unfold startGame. intros H.
  bind_inv H as [] Hv. bind_inv H as [] Hm. bind_inv H as [] Hact.
  bind_inv H as [locs gas'] Hplace.
  change (replicate (Z.to_nat numberOfMines) 0)
    with (draws env timestamp sender 0 ++ replicate (Z.to_nat numberOfMines) 0) in Hplace.
  apply place_mines_Ok in Hplace; [|apply NoDup_nil_2].
  destruct Hplace as (_ & _ & Hgas).
  bind_inv H as left Hcharge. apply charge_Ok in Hcharge. cbn [snd] in Hcharge. lia.
Qed.

End StartGameFacts.

(** * revealTile *)


Lemma revealTile_Ok (st : State) (sender tileIndex : Z) st' effects :
  revealTile st sender tileIndex = Ok (st', effects) ->
  let g := game_of st sender in
  tileIndex < 25 /\ isActive g = true /\
  revealedTiles g !! Z.to_nat tileIndex = Some false /\
  exists isMine,
    scan (mineLocations g) tileIndex 0 (Z.to_nat (totalMines g)) = Ok isMine /\
    if isMine : bool
    then st' = set_game st sender (lost_game g tileIndex) /\
         effects = [Emit (TileRevealed sender tileIndex true); Emit (GameLost sender)]
    else revealedSafeTiles g + 1 <= uint8_max /\
         st' = set_game st sender (advanced_game g tileIndex) /\
         effects = [Emit (TileRevealed sender tileIndex false)].
Proof.
  intros H g. unfold revealTile in H.
  bind_inv H as [] Ht. apply require_Ok, Z.ltb_lt in Ht.
  bind_inv H as [] Hact. apply require_Ok in Hact.
  bind_inv H as revealed Hidx. unfold index in Hidx.
  destruct (revealedTiles (game_of st sender) !! Z.to_nat tileIndex) as [r|] eqn:Hr;
    [|discriminate].
  inversion Hidx; subst revealed; clear Hidx.
  bind_inv H as [] Hnew. apply require_Ok, negb_true_iff in Hnew. subst r.
  bind_inv H as isMine Hscan.
  repeat split; try assumption. exists isMine. split; [assumption|].
  destruct isMine.
  - inversion H. subst. auto.
  - bind_inv H as safe Hsafe. apply checked_add_Ok in Hsafe. destruct Hsafe as [-> Hfit].
    inversion H. subst. auto.
Qed.

Lemma revealTile_run (st : State) (sender tileIndex : Z) :
  let g := game_of st sender in
  0 <= tileIndex < 25 -> isActive g = true ->
  revealedTiles g !! Z.to_nat tileIndex = Some false ->
  Z.to_nat (totalMines g) = length (mineLocations g) ->
  revealedSafeTiles g + 1 <= uint8_max ->
  revealTile st sender tileIndex
  = if bool_decide (tileIndex ∈ mineLocations g)
    then Ok (set_game st sender (lost_game g tileIndex),
             [Emit (TileRevealed sender tileIndex true); Emit (GameLost sender)])
    else Ok (set_game st sender (advanced_game g tileIndex),
             [Emit (TileRevealed sender tileIndex false)]).
Proof.
  intros g Ht Hact Hrev Hlen Hcnt. unfold revealTile. fold g.
  destruct (Z.ltb_spec tileIndex 25); [|lia].
  rewrite Hact. rewrite !require_true, !bind_ret.
  unfold index. rewrite Hrev, bind_ret. cbn [negb]. rewrite require_true, bind_ret.
  rewrite Hlen, scan_all, bind_ret.
  case_bool_decide; [reflexivity|].
  rewrite checked_add_fits, bind_ret by assumption.
  unfold advanced_game. rewrite Hact. reflexivity.
Qed.

(** * cashOut and the house functions *)

Section PaymentFacts.

Variable env : Env.

Lemma transfer_Ok (to : Z) (u : unit) :
  transfer env to = Ok u -> can_receive env to = true.
Proof. unfold transfer. destruct (can_receive env to); [reflexivity | discriminate]. Qed.

Lemma transfer_accepted (to : Z) :
  can_receive env to = true -> transfer env to = Ok tt.
Proof. intros H. unfold transfer. rewrite H. reflexivity. Qed.

Lemma transfer_refused (to : Z) :
  can_receive env to = false -> transfer env to = TransferFailed.
Proof. intros H. unfold transfer. rewrite H. reflexivity. Qed.

Lemma withdrawHouseFunds_Ok (st : State) (sender : Z) st' effects :
  withdrawHouseFunds env st sender = Ok (st', effects) ->
  can_receive env sender = true /\
  st' = set_pool st 0 /\
  effects = [Transfer sender (sharedPoolBalance st)].
Proof.
  unfold withdrawHouseFunds. intros H.
  bind_inv H as [] Hpay. apply transfer_Ok in Hpay. inversion H. auto.
Qed.

Lemma cashOut_Ok (st : State) (sender : Z) st' effects :
  cashOut env st sender = Ok (st', effects) ->
  let g := game_of st sender in
  isActive g = true /\ 0 < revealedSafeTiles g /\
  exists theoretical realized,
    calculateWinnings (betAmount g) (totalMines g) (revealedSafeTiles g) = Ok theoretical /\
    theoretical + betAmount g <= uint256_max /\
    (if sharedPoolBalance st <? theoretical + betAmount g
     then betAmount g <= sharedPoolBalance st /\ realized = sharedPoolBalance st - betAmount g
     else realized = theoretical) /\
    betAmount g + realized <= sharedPoolBalance st /\
    st' = set_pool (set_game st sender (closed_game g))
                   (sharedPoolBalance st - (betAmount g + realized)) /\
    effects = [Transfer sender (betAmount g + realized); Emit (GameWon sender realized)].
Proof.
  intros H g. unfold cashOut in H. fold g in H.
  bind_inv H as [] Hact. apply require_Ok in Hact.
  bind_inv H as [] Hcnt. apply require_Ok, Z.ltb_lt in Hcnt.
  bind_inv H as theoretical Hcalc.
  bind_inv H as wanted Hwant. apply checked_add_Ok in Hwant. destruct Hwant as [-> Hwant].
  bind_inv H as realized Hclamp.
  bind_inv H as paid Hpaid. apply checked_add_Ok in Hpaid. destruct Hpaid as [-> Hpaid].
  bind_inv H as pool Hpool. unfold checked_sub in Hpool.
  destruct (Z.leb_spec (betAmount g + realized) (sharedPoolBalance st)); [|discriminate].
  inversion Hpool; subst pool; clear Hpool.
  bind_inv H as [] Hpay. inversion H; subst; clear H.
  repeat split; try assumption.
  exists theoretical, realized. repeat split; try assumption.
  destruct (sharedPoolBalance st <? theoretical + betAmount g).
  - unfold checked_sub in Hclamp.
    destruct (Z.leb_spec (betAmount g) (sharedPoolBalance st)); [|discriminate].
    inversion Hclamp. auto.
  - inversion Hclamp. reflexivity.
Qed.

(** A cash-out that returns has paid someone who takes the value. *)
Lemma cashOut_Ok_payee (st : State) (sender : Z) r :
  cashOut env st sender = Ok r -> can_receive env sender = true.
Proof.
  unfold cashOut. intros H.
  bind_inv H as [] Hact. bind_inv H as [] Hcnt. bind_inv H as theoretical Hcalc.
  bind_inv H as wanted Hwant. bind_inv H as realized Hclamp.
  bind_inv H as paid Hpaid. bind_inv H as pool Hpool.
  bind_inv H as [] Hpay. apply transfer_Ok in Hpay. exact Hpay.
Qed.

(** The pool covers the theoretical payout: it is paid in full. *)
Lemma cashOut_solvent (st : State) (sender winnings : Z) :
  let g := game_of st sender in
  isActive g = true -> 0 < revealedSafeTiles g -> 0 <= betAmount g -> 0 <= winnings ->
  calculateWinnings (betAmount g) (totalMines g) (revealedSafeTiles g) = Ok winnings ->
  winnings + betAmount g <= sharedPoolBalance st <= uint256_max ->
  can_receive env sender = true ->
  cashOut env st sender
  = Ok (set_pool (set_game st sender (closed_game g))
                 (sharedPoolBalance st - (betAmount g + winnings)),
        [Transfer sender (betAmount g + winnings); Emit (GameWon sender winnings)]).
Proof.
  intros g Hact Hcnt Hbet Hw Hcalc Hpool Hpay. unfold cashOut. fold g.
  rewrite Hact. destruct (Z.ltb_spec 0 (revealedSafeTiles g)); [|lia].
  rewrite !require_true, !bind_ret. rewrite Hcalc, bind_ret.
  rewrite checked_add_fits, bind_ret by lia.
  destruct (Z.ltb_spec (sharedPoolBalance st) (winnings + betAmount g)); [lia|].
  rewrite bind_ret, checked_add_fits, bind_ret by lia.
  rewrite checked_sub_fits, bind_ret by lia.
  rewrite transfer_accepted, bind_ret by assumption. reflexivity.
Qed.

(** The pool covers the stake but not the winnings: the payout is clamped
    to the whole pool. *)
Lemma cashOut_clamped (st : State) (sender winnings : Z) :
  let g := game_of st sender in
  isActive g = true -> 0 < revealedSafeTiles g -> 0 <= betAmount g ->
  calculateWinnings (betAmount g) (totalMines g) (revealedSafeTiles g) = Ok winnings ->
  winnings + betAmount g <= uint256_max ->
  betAmount g <= sharedPoolBalance st < winnings + betAmount g ->
  can_receive env sender = true ->
  cashOut env st sender
  = Ok (set_pool (set_game st sender (closed_game g)) 0,
        [Transfer sender (sharedPoolBalance st);
         Emit (GameWon sender (sharedPoolBalance st - betAmount g))]).
Proof.
  intros g Hact Hcnt Hbet Hcalc Hmax Hpool Hpay. unfold cashOut. fold g.
  rewrite Hact. destruct (Z.ltb_spec 0 (revealedSafeTiles g)); [|lia].
  rewrite !require_true, !bind_ret. rewrite Hcalc, bind_ret.
  rewrite checked_add_fits, bind_ret by lia.
  destruct (Z.ltb_spec (sharedPoolBalance st) (winnings + betAmount g)); [|lia].
  rewrite checked_sub_fits, bind_ret by lia.
  rewrite checked_add_fits, bind_ret by lia.
  rewrite checked_sub_fits, bind_ret by lia.
  rewrite transfer_accepted, bind_ret by assumption.
  replace (betAmount g + (sharedPoolBalance st - betAmount g)) with (sharedPoolBalance st) by lia.
  rewrite Z.sub_diag. reflexivity.
Qed.

(** The pool does not even cover the stake: the subtraction
    [sharedPoolBalance - game.betAmount] underflows and the call aborts. *)
Lemma cashOut_insolvent (st : State) (sender winnings : Z) :
  let g := game_of st sender in
  isActive g = true -> 0 < revealedSafeTiles g -> 0 <= winnings ->
  calculateWinnings (betAmount g) (totalMines g) (revealedSafeTiles g) = Ok winnings ->
  winnings + betAmount g <= uint256_max ->
  sharedPoolBalance st < betAmount g ->
  cashOut env st sender = Panic ARITHMETIC.
Proof.
  intros g Hact Hcnt Hw Hcalc Hmax Hpool. unfold cashOut. fold g.
  rewrite Hact. destruct (Z.ltb_spec 0 (revealedSafeTiles g)); [|lia].
  rewrite !require_true, !bind_ret. rewrite Hcalc, bind_ret.
  rewrite checked_add_fits, bind_ret by lia.
  destruct (Z.ltb_spec (sharedPoolBalance st) (winnings + betAmount g)); [|lia].
  rewrite checked_sub_underflow by lia. reflexivity.
Qed.

End PaymentFacts.

(** * Counting the tiles that satisfy a predicate *)

Section Counting.

Context {A : Type} (P Q : A -> Prop).
Context `{!forall x, Decision (P x)} `{!forall x, Decision (Q x)}.

Lemma length_filter_same (l : list A) :
  (forall x, x ∈ l -> P x <-> Q x) ->
  length (filter P l) = length (filter Q l).
Proof.
  induction l as [|x l IH]; intros Hext; [reflexivity|].
  assert (Hx : P x <-> Q x) by (apply Hext; left).
  assert (Hl : forall y, y ∈ l -> P y <-> Q y) by (intros y Hy; apply Hext; by right).
  destruct (decide (P x)) as [HP|HP].
  - rewrite (filter_cons_True P) by assumption.
    rewrite (filter_cons_True Q) by tauto. simpl. f_equal. auto.
  - rewrite (filter_cons_False P) by assumption.
    rewrite (filter_cons_False Q) by tauto. auto.
Qed.

Lemma length_filter_one_more (l : list A) (t : A) :
  NoDup l -> t ∈ l -> ~ P t -> Q t ->
  (forall x, x <> t -> P x <-> Q x) ->
  length (filter Q l) = S (length (filter P l)).
Proof.
  intros Hnd Hin HP HQ Hext.
  induction l as [|x l IH]; [by apply elem_of_nil in Hin|].
  apply NoDup_cons in Hnd. destruct Hnd as [Hx Hnd].
  apply elem_of_cons in Hin. destruct Hin as [<-|Hin].
  - rewrite (filter_cons_True Q), (filter_cons_False P) by assumption.
    simpl. f_equal. symmetry. apply length_filter_same.
    intros y Hy. apply Hext. intros ->. contradiction.
  - assert (Hne : x <> t) by (intros ->; contradiction).
    destruct (decide (P x)) as [HPx|HPx].
    + rewrite (filter_cons_True P) by assumption.
      rewrite (filter_cons_True Q) by (apply Hext; assumption).
      simpl. f_equal. auto.
    + rewrite (filter_cons_False P) by assumption.
      rewrite (filter_cons_False Q) by (rewrite <- Hext; assumption).
      auto.
Qed.

End Counting.

(** * The counter and the count of safe reveals *)

Lemma safe_revealed_bound (g : Game) : 0 <= safe_revealed g <= 25.
Proof.
  unfold safe_revealed.
  pose proof (length_filter (safe_and_revealed g) (seq 0 25)) as H.
  rewrite length_seq in H. lia.
Qed.

Lemma safe_revealed_fresh (sender value numberOfMines : Z) (mines : list Z) :
  safe_revealed (mkGame sender value numberOfMines 0 (replicate 25 false) mines true) = 0.
Proof.
  unfold safe_revealed.
  rewrite (length_filter_same _ (fun _ => False)); [reflexivity|].
  intros i Hi. unfold safe_and_revealed. cbn [revealedTiles]. split; [|tauto].
  intros [Hrev _]. apply lookup_replicate in Hrev. destruct Hrev. discriminate.
Qed.

Lemma safe_revealed_closed (g : Game) : safe_revealed (closed_game g) = safe_revealed g.
Proof. reflexivity. Qed.

(** Revealing a mine leaves the count as it is. *)
Lemma safe_revealed_lost (g : Game) (tileIndex : Z) :
  0 <= tileIndex -> tileIndex ∈ mineLocations g ->
  safe_revealed (lost_game g tileIndex) = safe_revealed g.
Proof.
  intros Ht Hmine. unfold safe_revealed. f_equal.
  apply length_filter_same. intros i _. unfold safe_and_revealed. simpl.
  destruct (decide (i = Z.to_nat tileIndex)) as [->|Hne].
  - rewrite Z2Nat.id by assumption. tauto.
  - rewrite list_lookup_insert_ne by congruence. tauto.
Qed.

(** Revealing a safe tile that was hidden adds exactly one to the count. *)
Lemma safe_revealed_advanced (g : Game) (tileIndex : Z) :
  0 <= tileIndex < 25 -> tileIndex ∉ mineLocations g ->
  revealedTiles g !! Z.to_nat tileIndex = Some false ->
  safe_revealed (advanced_game g tileIndex) = safe_revealed g + 1.
Proof.
  intros Ht Hsafe Hidden. unfold safe_revealed.
  rewrite (length_filter_one_more (safe_and_revealed g)
             (safe_and_revealed (advanced_game g tileIndex))
             (seq 0 25) (Z.to_nat tileIndex)).
  - lia.
  - apply NoDup_seq.
  - apply elem_of_seq. lia.
  - unfold safe_and_revealed. rewrite Hidden. intros [Hrev _]. discriminate.
  - unfold safe_and_revealed. simpl. split.
    + apply list_lookup_insert_eq. eapply lookup_lt_Some. eassumption.
    + rewrite Z2Nat.id by lia. assumption.
  - intros i Hne. unfold safe_and_revealed. simpl.
    rewrite list_lookup_insert_ne by congruence. tauto.
Qed.

(** * The invariant of every record *)

Section InvariantFacts.

Variable env : Env.

Lemma game_inv_no_game : game_inv no_game.
Proof. split; [reflexivity | discriminate]. Qed.

Lemma game_inv_fresh (timestamp sender value numberOfMines : Z) :
  game_inv (fresh_game env timestamp sender value numberOfMines).
Proof.
  split.
  - unfold fresh_game. rewrite safe_revealed_fresh. reflexivity.
  - intros _. split; cbn [fresh_game revealedTiles mineLocations totalMines].
    + apply length_replicate.
    + rewrite length_draws. reflexivity.
Qed.

(** In a well-formed record the scan of [revealTile] decides membership
    in [mineLocations]. *)
Lemma scan_mines (g : Game) (tileIndex : Z) :
  well_formed g ->
  scan (mineLocations g) tileIndex 0 (Z.to_nat (totalMines g))
  = Ok (bool_decide (tileIndex ∈ mineLocations g)).
Proof. intros [_ Hlen]. rewrite Hlen. apply scan_all. Qed.

Lemma game_inv_reveal (st : State) (sender tileIndex : Z) st' effects :
  0 <= tileIndex ->
  revealTile st sender tileIndex = Ok (st', effects) ->
  game_inv (game_of st sender) -> game_inv (game_of st' sender).
Proof.
  intros Ht Hrun [Hcount Hwf].
  apply revealTile_Ok in Hrun. cbv zeta in Hrun.
  destruct Hrun as (Ht' & Hact & Hidden & isMine & Hscan & Hres).
  specialize (Hwf Hact). rewrite scan_mines in Hscan by assumption.
  destruct Hwf as [Htiles Hmines].
  case_bool_decide as HisMine; inversion Hscan; subst isMine.
  - destruct Hres as (-> & _). rewrite game_of_set_game. split.
    + rewrite safe_revealed_lost by assumption. exact Hcount.
    + discriminate.
  - destruct Hres as (_ & -> & _). rewrite game_of_set_game. split.
    + rewrite safe_revealed_advanced by (assumption || lia).
      simpl. rewrite Hcount. reflexivity.
    + intros _. split; simpl; [rewrite length_insert|]; assumption.
Qed.

(** Every call that returns keeps the invariant of every record. *)
Lemma game_inv_call (st : State) (sender : Z) (c : Call) st' effects :
  well_typed c ->
  call env st sender c = Ok (st', effects) ->
  (forall who, game_inv (game_of st who)) ->
  forall who, game_inv (game_of st' who).
Proof.
  intros Hty Hrun Hinv who.
  destruct c as [gas timestamp value numberOfMines|tileIndex| |value|]; simpl in Hrun.
  - apply startGame_Ok in Hrun.
    destruct Hrun as (_ & _ & _ & _ & _ & -> & _). rewrite game_of_set_pool.
    destruct (decide (sender = who)) as [->|Hne].
    + rewrite game_of_set_game. apply game_inv_fresh.
    + rewrite game_of_set_game_other by assumption. apply Hinv.
  - destruct (decide (sender = who)) as [->|Hne].
    + eapply game_inv_reveal; [apply Hty | eassumption | apply Hinv].
    + apply revealTile_Ok in Hrun. cbv zeta in Hrun.
      destruct Hrun as (_ & _ & _ & isMine & _ & Hres).
      destruct isMine; [destruct Hres as (-> & _) | destruct Hres as (_ & -> & _)];
        rewrite game_of_set_game_other by assumption; apply Hinv.
  - apply cashOut_Ok in Hrun. cbv zeta in Hrun.
    destruct Hrun as (_ & _ & theoretical & realized & _ & _ & _ & _ & -> & _).
    rewrite game_of_set_pool.
    destruct (decide (sender = who)) as [->|Hne].
    + rewrite game_of_set_game. split.
      * rewrite safe_revealed_closed. apply (Hinv who).
      * discriminate.
    + rewrite game_of_set_game_other by assumption. apply Hinv.
  - unfold addHouseFunds in Hrun. bind_inv Hrun as pool Hpool.
    inversion Hrun. subst. apply Hinv.
  - apply withdrawHouseFunds_Ok in Hrun. destruct Hrun as (_ & -> & ->). apply Hinv.
Qed.

Lemma reachable_game_inv (st : State) :
  reachable env st -> forall who, game_inv (game_of st who).
Proof.
  induction 1 as [|st sender c Hreach IH Hty].
  - intros who. rewrite game_of_deployed. apply game_inv_no_game.
  - unfold exec. destruct (call env st sender c) as [[st' effects]| | | |] eqn:Hrun;
      try exact IH.
    simpl. eapply game_inv_call; eassumption.
Qed.

End InvariantFacts.

(** * Runs of transactions *)

Section RunFacts.

Variable env : Env.

Lemma reachable_run (st : State) (txs : list (Z * Call)) :
  reachable env st -> Forall (fun tx => well_typed (snd tx)) txs ->
  reachable env (run env st txs).
Proof.
  intros Hst Htxs. revert st Hst.
  induction Htxs as [|[sender c] txs Hty _ IH]; intros st Hst; [exact Hst|].
  simpl. apply IH. apply reachable_exec; assumption.
Qed.

Lemma exec_aborted (st : State) (sender : Z) (c : Call) :
  (forall r, call env st sender c <> Ok r) -> exec env st sender c = st.
Proof.
  intros Hno. unfold exec.
  destruct (call env st sender c) as [r| | | |]; [|reflexivity..].
  destruct (Hno r). reflexivity.
Qed.

End RunFacts.

Ltac well_typed_txs :=
  cbn [reveals map app];
  repeat (apply Forall_cons_2; [vm_compute; repeat split; discriminate|]);
  apply Forall_nil_2.

Lemma draws_colliding :
  draws local_node colliding_timestamp alice 2 = [13; 13].
Proof. vm_compute. reflexivity. Qed.

Lemma draws_scenario_A :
  draws local_node scenario_A_timestamp alice 3 = [16; 5; 5].
Proof. vm_compute. reflexivity. Qed.

Lemma draws_quiet :
  draws local_node quiet_timestamp alice 3 = [24; 10; 19].
Proof. vm_compute. reflexivity. Qed.

Lemma reachable_insolvent_state : reachable local_node insolvent_state.
Proof.
  apply reachable_run; [apply reachable_deployed|].
  unfold insolvent_txs. well_typed_txs.
Qed.

Lemma reachable_eleven_safe_state : reachable local_node eleven_safe_state.
Proof.
  apply reachable_run; [apply reachable_deployed|].
  unfold eleven_safe_txs. well_typed_txs.
Qed.

(** The record of [alice] and the pool in the two concrete states. *)
Lemma insolvent_state_game :
  game_of insolvent_state alice
  = mkGame alice 100 3 5
      ([true; true; true; true; true] ++ replicate 20 false) [24; 10; 19] true
  /\ sharedPoolBalance insolvent_state = 50.
Proof. split; vm_compute; reflexivity. Qed.

Lemma eleven_safe_state_game :
  game_of eleven_safe_state alice
  = mkGame alice 100 1 11 (replicate 11 true ++ replicate 14 false) [24] true
  /\ sharedPoolBalance eleven_safe_state = 100.
Proof. split; vm_compute; reflexivity. Qed.

(** * What a start leaves behind, when it returns *)

Section StartPost.

Variable env : Env.

(** After a start that returns, the record of the caller is active, has no
    safe tile counted, 25 hidden tiles, [numberOfMines] pairwise distinct
    mines in [0, 25), the stake as bet, and the pool has grown by the
    stake. *)
Lemma startGame_post gas st timestamp sender value numberOfMines st' effects :
  startGame env gas st timestamp sender value numberOfMines = Ok (st', effects) ->
  let g := game_of st' sender in
  isActive g = true /\ revealedSafeTiles g = 0 /\
  revealedTiles g = replicate 25 false /\
  length (mineLocations g) = Z.to_nat numberOfMines /\
  NoDup (mineLocations g) /\
  (forall m, m ∈ mineLocations g -> 0 <= m < 25) /\
  betAmount g = value /\ totalMines g = numberOfMines /\
  sharedPoolBalance st' = sharedPoolBalance st + value.
Proof.
  intros Hrun g. apply startGame_Ok in Hrun.
  destruct Hrun as (_ & _ & _ & Hnd & _ & -> & _).
  subst g. rewrite game_of_set_pool, game_of_set_game.
  unfold fresh_game. cbn [isActive revealedSafeTiles revealedTiles mineLocations
                          betAmount totalMines sharedPoolBalance set_pool].
  rewrite length_draws. repeat split; try reflexivity; try assumption.
  - eapply draws_range; eassumption.
  - eapply draws_range; eassumption.
Qed.

(** A valid start with gas for one turn per slot and for the rest of the
    call returns exactly when the hashed values of its slots are pairwise
    distinct. *)
Lemma startGame_returns_iff gas st timestamp sender value numberOfMines :
  0 < value -> 1 <= numberOfMines <= 24 ->
  isActive (game_of st sender) = false ->
  (Z.to_nat numberOfMines + finish_gas env numberOfMines <= gas)%nat ->
  sharedPoolBalance st + value <= uint256_max ->
  (exists r, startGame env gas st timestamp sender value numberOfMines = Ok r)
  <-> NoDup (draws env timestamp sender (Z.to_nat numberOfMines)).
Proof.
  intros Hv Hm Hact Hgas Hpool. split.
  - intros [[st' effects] Hrun]. apply startGame_Ok in Hrun. tauto.
  - intros Hnd. eexists. apply startGame_distinct; assumption.
Qed.

End StartPost.

(** * The claims *)

(** C1. At cash-out a payout above the pool is clamped to the pool, and when
    the pool is below the stake the realized winnings are floored at zero and
    the cash-out completes. The code does the first ([cashOut_clamped]) and
    not the second: in the reachable state [insolvent_state] the pool holds
    50, the record of [alice] is active with a stake of 100 and theoretical
    winnings of 4, and her cash-out aborts with [Panic(0x11)] on
    [sharedPoolBalance - game.betAmount], leaving the storage as it was. *)
Theorem cashOut_aborts_below_stake :
  reachable local_node insolvent_state /\
  sharedPoolBalance insolvent_state = 50 /\
  isActive (game_of insolvent_state alice) = true /\
  betAmount (game_of insolvent_state alice) = 100 /\
  calculateWinnings (betAmount (game_of insolvent_state alice))
                    (totalMines (game_of insolvent_state alice))
                    (revealedSafeTiles (game_of insolvent_state alice)) = Ok 4 /\
  call local_node insolvent_state alice CashOut = Panic ARITHMETIC /\
  exec local_node insolvent_state alice CashOut = insolvent_state.
Proof.
  destruct insolvent_state_game as [Hgame Hpool].
  assert (Hcall : call local_node insolvent_state alice CashOut = Panic ARITHMETIC).
  { simpl. apply (cashOut_insolvent local_node insolvent_state alice 4);
      rewrite ?Hgame, ?Hpool; cbn [isActive revealedSafeTiles betAmount totalMines];
      try reflexivity; try lia.
    unfold uint256_max. lia. }
  split; [apply reachable_insolvent_state|].
  split; [exact Hpool|].
  split; [rewrite Hgame; reflexivity|].
  split; [rewrite Hgame; reflexivity|].
  split; [rewrite Hgame; reflexivity|].
  split; [exact Hcall|].
  apply exec_aborted. rewrite Hcall. discriminate.
Qed.

(** C2. For every valid start the rejection-sampling loop terminates with
    pairwise distinct mines. It does not: a retry hashes the same
    (timestamp, player, i) again, so a slot that collides once collides on
    every retry. For [alice] at [colliding_timestamp], slots 0 and 1 both
    hash to 13, and the start of a game with two mines, a stake of 100 and
    no game active runs out of gas whatever gas it is given. *)
Theorem startGame_loops_on_collision :
  draws local_node colliding_timestamp alice 2 = [13; 13] /\
  isActive (game_of deployed alice) = false /\
  forall gas,
    startGame local_node gas deployed colliding_timestamp alice 100 2 = OutOfGas.
Proof.
  split; [apply draws_colliding|]. split; [reflexivity|].
  intros gas. apply startGame_collision; try reflexivity; try lia.
  change (Z.to_nat 2) with 2%nat. rewrite draws_colliding.
  intros Hnd. apply NoDup_cons in Hnd. destruct Hnd as [Hfresh _].
  apply Hfresh. left.
Qed.

(** C3. The payout is 0 for no safe tile and otherwise
    floor(betAmount * floor((25 - totalMines) * revealedSafeTiles / 25) / 100);
    for bet 100, 3 mines, 5 safe tiles it is 4. The instance holds, the
    formula does not hold for all inputs: the product
    [(25 - totalMines) * revealedSafeTiles] is computed in [uint8], and for
    bet 100, one mine and 11 safe tiles (264 > 255) the function aborts with
    [Panic(0x11)] where the formula gives 10. The input is reached in play:
    in [eleven_safe_state] the cash-out of [alice] aborts on it. *)
Theorem calculateWinnings_aborts_above_uint8 :
  calculateWinnings 100 3 5 = Ok 4 /\
  100 * ((25 - 1) * 11 / 25) / 100 = 10 /\
  calculateWinnings 100 1 11 = Panic ARITHMETIC /\
  reachable local_node eleven_safe_state /\
  totalMines (game_of eleven_safe_state alice) = 1 /\
  revealedSafeTiles (game_of eleven_safe_state alice) = 11 /\
  call local_node eleven_safe_state alice CashOut = Panic ARITHMETIC.
Proof.
  destruct eleven_safe_state_game as [Hgame Hpool].
  split; [reflexivity|]. split; [reflexivity|]. split; [reflexivity|].
  split; [apply reachable_eleven_safe_state|].
  rewrite Hgame. cbn [totalMines revealedSafeTiles].
  split; [reflexivity|]. split; [reflexivity|].
  simpl. unfold cashOut. rewrite Hgame. reflexivity.
Qed.

(** C4. After every valid start the record of the caller is active with
    [totalMines] distinct mines and the pool has grown by the stake. Where
    the start returns this holds ([startGame_post]); but Scenario A itself,
    a stake of 100 on 3 mines, does not return for [alice] at
    [scenario_A_timestamp]: slots 1 and 2 both hash to 5, the call runs out
    of gas whatever gas it is given, no record is written and the pool is
    not increased. *)
Theorem startGame_scenario_A_does_not_start :
  draws local_node scenario_A_timestamp alice 3 = [16; 5; 5] /\
  forall gas,
    let c := StartGame gas scenario_A_timestamp 100 3 in
    call local_node deployed alice c = OutOfGas /\
    isActive (game_of (exec local_node deployed alice c) alice) = false /\
    mineLocations (game_of (exec local_node deployed alice c) alice) = [] /\
    sharedPoolBalance (exec local_node deployed alice c) = 0.
Proof.
  split; [apply draws_scenario_A|]. intros gas c.
  assert (Hcall : call local_node deployed alice c = OutOfGas).
  { simpl. apply startGame_collision; try reflexivity; try lia.
    change (Z.to_nat 3) with 3%nat. rewrite draws_scenario_A.
    intros Hnd. apply NoDup_cons in Hnd. destruct Hnd as [_ Hnd].
    apply NoDup_cons in Hnd. destruct Hnd as [Hfresh _].
    apply Hfresh. left. }
  split; [exact Hcall|].
  rewrite exec_aborted by (rewrite Hcall; discriminate).
  repeat split; reflexivity.
Qed.

Section Claims.

Variable env : Env.

(** C5. Every call of [startGame], [revealTile] or [cashOut] that violates
    a precondition (zero stake, mine count out of range, game already
    active, tile index out of range, tile already revealed, no active game,
    no safe tile at cash-out) is rejected with the reason of that
    precondition and leaves the whole storage, records and pool, as it
    was; in particular, after a reveal of a tile that returned, a second
    reveal of the same tile is such a rejected call. *)
Theorem violations_are_rejected (st : State) (sender : Z) :
  (forall c reason,
      violation st sender c reason ->
      call env st sender c = Revert reason /\
      exec env st sender c = st) /\
  (forall tileIndex st' effects,
      0 <= tileIndex ->
      revealTile st sender tileIndex = Ok (st', effects) ->
      exists reason,
        violation st' sender (RevealTile tileIndex) reason /\
        call env st' sender (RevealTile tileIndex) = Revert reason /\
        exec env st' sender (RevealTile tileIndex) = st').
Proof.
  assert (Hfirst : forall st0 c reason,
             violation st0 sender c reason ->
             call env st0 sender c = Revert reason /\
             exec env st0 sender c = st0).
  { intros st0 c reason Hv.
    assert (Hcall : call env st0 sender c = Revert reason).
    { destruct Hv as [gas timestamp numberOfMines
                     |gas timestamp value numberOfMines Hvalue Hmines
                     |gas timestamp value numberOfMines Hvalue Hmines Hact
                     |tileIndex Htile
                     |tileIndex Htile Hact
                     |tileIndex Htile Hact Hrev
                     |Hact
                     |Hact Hcnt]; simpl.
      - reflexivity.
      - unfold startGame. destruct (Z.ltb_spec 0 value); [|lia].
        rewrite require_true, bind_ret.
        destruct (Z.leb_spec 1 numberOfMines); destruct (Z.leb_spec numberOfMines 24);
          try reflexivity. lia.
      - unfold startGame. destruct (Z.ltb_spec 0 value); [|lia].
        destruct (Z.leb_spec 1 numberOfMines); [|lia].
        destruct (Z.leb_spec numberOfMines 24); [|lia].
        rewrite Hact. reflexivity.
      - unfold revealTile. destruct (Z.ltb_spec tileIndex 25); [lia|]. reflexivity.
      - unfold revealTile. destruct (Z.ltb_spec tileIndex 25); [|lia].
        rewrite Hact. reflexivity.
      - unfold revealTile. destruct (Z.ltb_spec tileIndex 25); [|lia].
        rewrite Hact. rewrite !require_true, !bind_ret.
        unfold index. rewrite Hrev. reflexivity.
      - unfold cashOut. rewrite Hact. reflexivity.
      - unfold cashOut. rewrite Hact, Hcnt. reflexivity. }
    split; [exact Hcall|].
    apply exec_aborted. rewrite Hcall. discriminate. }
  split; [apply Hfirst|].
  intros tileIndex st' effects Hpos Hrun.
  apply revealTile_Ok in Hrun. cbv zeta in Hrun.
  destruct Hrun as (Ht & Hact & Hidden & isMine & _ & Hres).
  assert (Hlen : (Z.to_nat tileIndex < length (revealedTiles (game_of st sender)))%nat)
    by (eapply lookup_lt_Some; eassumption).
  assert (Hv : exists reason, violation st' sender (RevealTile tileIndex) reason).
  { destruct isMine.
    - destruct Hres as (-> & _). eexists. apply reveal_without_game; [assumption|].
      rewrite game_of_set_game. reflexivity.
    - destruct Hres as (_ & -> & _). eexists.
      apply tile_already_revealed; rewrite ?game_of_set_game;
        cbn [advanced_game isActive revealedTiles]; [lia | assumption |].
      apply list_lookup_insert_eq. assumption. }
  destruct Hv as [reason Hv]. exists reason.
  split; [exact Hv|]. apply Hfirst. exact Hv.
Qed.

(** C6. In every state the contract can reach, the counter
    [revealedSafeTiles] of every record equals the number of indices in
    [0, 25) whose flag is set and that are not in [mineLocations]. It holds
    after start: a valid start whose slots hash to pairwise distinct tiles
    returns, given enough gas, and leaves the counter and the count at 0.
    It is preserved by every reveal: the reveal of a hidden tile of an active
    game returns, sets the flag of that tile and changes nothing else of the
    board; if the tile is a mine the counter and the count stay as they
    were, if it is safe both grow by exactly 1. *)
Theorem counter_counts_safe_reveals (st : State) (who : Z) :
  reachable env st ->
  revealedSafeTiles (game_of st who) = safe_revealed (game_of st who) /\
  (forall timestamp value numberOfMines,
      0 < value -> 1 <= numberOfMines <= 24 ->
      isActive (game_of st who) = false ->
      NoDup (draws env timestamp who (Z.to_nat numberOfMines)) ->
      sharedPoolBalance st + value <= uint256_max ->
      exists enough, forall gas, (enough <= gas)%nat ->
        exists st' effects,
          startGame env gas st timestamp who value numberOfMines = Ok (st', effects) /\
          isActive (game_of st' who) = true /\
          revealedSafeTiles (game_of st' who) = 0 /\
          safe_revealed (game_of st' who) = 0) /\
  (forall tileIndex,
      0 <= tileIndex < 25 ->
      isActive (game_of st who) = true ->
      revealedTiles (game_of st who) !! Z.to_nat tileIndex = Some false ->
      exists st' effects,
        revealTile st who tileIndex = Ok (st', effects) /\
        let g := game_of st who in
        let g' := game_of st' who in
        revealedTiles g' = <[Z.to_nat tileIndex := true]> (revealedTiles g) /\
        mineLocations g' = mineLocations g /\
        revealedSafeTiles g' = safe_revealed g' /\
        (tileIndex ∈ mineLocations g ->
         revealedSafeTiles g' = revealedSafeTiles g /\
         safe_revealed g' = safe_revealed g) /\
        (tileIndex ∉ mineLocations g ->
         revealedSafeTiles g' = revealedSafeTiles g + 1 /\
         safe_revealed g' = safe_revealed g + 1)).
Proof.
  intros Hreach.
  destruct (reachable_game_inv env st Hreach who) as [Hcount Hwf].
  split; [exact Hcount|]. split.
  - intros timestamp value numberOfMines Hv Hm Hact Hnd Hfit.
    exists (Z.to_nat numberOfMines + finish_gas env numberOfMines)%nat.
    intros gas Hgas. eexists _, _. split.
    + apply startGame_distinct; assumption.
    + rewrite game_of_set_pool, game_of_set_game. unfold fresh_game.
      rewrite safe_revealed_fresh. repeat split; reflexivity.
  - intros tileIndex Ht Hact Hidden.
    specialize (Hwf Hact).
    pose proof (safe_revealed_bound (game_of st who)) as Hbound.
    assert (Hrun := revealTile_run st who tileIndex). cbv zeta in Hrun.
    rewrite Hrun; clear Hrun;
      [|assumption|assumption|assumption|apply Hwf|unfold uint8_max; lia].
    case_bool_decide as Hmine; eexists _, _; (split; [reflexivity|]);
      cbv zeta; rewrite game_of_set_game.
    + split; [reflexivity|]. split; [reflexivity|].
      assert (Hsame : safe_revealed (lost_game (game_of st who) tileIndex)
                      = safe_revealed (game_of st who))
        by (apply safe_revealed_lost; [lia | assumption]).
      rewrite Hsame. split; [exact Hcount|]. split.
      * intros _. split; reflexivity.
      * intros Hsafe. contradiction.
    + split; [reflexivity|]. split; [reflexivity|].
      assert (Hmore : safe_revealed (advanced_game (game_of st who) tileIndex)
                      = safe_revealed (game_of st who) + 1)
        by (apply safe_revealed_advanced; assumption).
      rewrite Hmore. cbn [advanced_game revealedSafeTiles].
      split; [lia|]. split.
      * intros Hin. contradiction.
      * intros _. split; reflexivity.
Qed.

(** C7. In a reachable state, a reveal of a hidden tile of an active game
    returns and leaves the pool, the bet, the mine count and the mines as
    they were, and transfers nothing. If the tile is in [mineLocations] the
    game becomes inactive and the counter stays; if it is not, the counter
    grows by 1 and the game stays active. *)
Theorem revealTile_effect (st : State) (sender tileIndex : Z) :
  reachable env st ->
  0 <= tileIndex < 25 ->
  isActive (game_of st sender) = true ->
  revealedTiles (game_of st sender) !! Z.to_nat tileIndex = Some false ->
  exists st' effects,
    revealTile st sender tileIndex = Ok (st', effects) /\
    let g := game_of st sender in
    let g' := game_of st' sender in
    sharedPoolBalance st' = sharedPoolBalance st /\
    betAmount g' = betAmount g /\ totalMines g' = totalMines g /\
    mineLocations g' = mineLocations g /\
    (forall to amount, Transfer to amount ∉ effects) /\
    (tileIndex ∈ mineLocations g ->
     isActive g' = false /\ revealedSafeTiles g' = revealedSafeTiles g) /\
    (tileIndex ∉ mineLocations g ->
     isActive g' = true /\ revealedSafeTiles g' = revealedSafeTiles g + 1).
Proof.
  intros Hreach Ht Hact Hidden.
  destruct (reachable_game_inv env st Hreach sender) as [Hcount Hwf].
  specialize (Hwf Hact).
  pose proof (safe_revealed_bound (game_of st sender)) as Hbound.
  assert (Hrun := revealTile_run st sender tileIndex). cbv zeta in Hrun.
  rewrite Hrun; clear Hrun;
    [|assumption|assumption|assumption|apply Hwf|unfold uint8_max; lia].
  case_bool_decide as Hmine; eexists _, _; (split; [reflexivity|]);
    cbv zeta; rewrite game_of_set_game.
  - repeat split; try reflexivity; try contradiction.
    intros to amount Hin. repeat (apply elem_of_cons in Hin; destruct Hin as [Hin|Hin];
      [discriminate|]). by apply elem_of_nil in Hin.
  - repeat split; try reflexivity; try contradiction; try assumption.
    intros to amount Hin. repeat (apply elem_of_cons in Hin; destruct Hin as [Hin|Hin];
      [discriminate|]). by apply elem_of_nil in Hin.
Qed.

(** C9 (amended). [withdrawHouseFunds] checks neither the caller nor the
    state: for every state and every caller that can receive the payment it
    returns, transfers the whole tracked pool to the caller and sets the pool
    to zero, leaving the records as they were. For a caller that cannot
    receive value the [transfer] fails, the call aborts and the storage,
    pool included, stays as it was. *)
Theorem withdrawHouseFunds_drains_pool (st : State) (sender : Z) :
  (can_receive env sender = true ->
   exists st',
     call env st sender WithdrawHouseFunds
     = Ok (st', [Transfer sender (sharedPoolBalance st)]) /\
     sharedPoolBalance st' = 0 /\ games st' = games st) /\
  (can_receive env sender = false ->
   call env st sender WithdrawHouseFunds = TransferFailed /\
   exec env st sender WithdrawHouseFunds = st).
Proof.
  split.
  - intros Hpay. eexists. simpl. unfold withdrawHouseFunds.
    rewrite transfer_accepted, bind_ret by assumption.
    split; [reflexivity|]. split; reflexivity.
  - intros Hno.
    assert (Hcall : call env st sender WithdrawHouseFunds = TransferFailed).
    { simpl. unfold withdrawHouseFunds. rewrite transfer_refused by assumption.
      reflexivity. }
    split; [exact Hcall|]. apply exec_aborted. rewrite Hcall. discriminate.
Qed.

End Claims.

(** C8. For a fixed bet and mine count the payout is non-decreasing in the
    number of safe tiles. Where the function returns it is
    ([calculateWinnings_monotone]); but it does not return for all safe-tile
    counts of a game: with bet 100 and one mine it returns 9 for 10 safe
    tiles and aborts with [Panic(0x11)] for 11, the [uint8] product
    24 * 11 being above 255. *)
Theorem calculateWinnings_aborts_on_larger_count :
  1 <= 1 <= 24 /\ 10 <= 11 /\ 11 <= 25 - 1 /\
  calculateWinnings 100 1 10 = Ok 9 /\
  calculateWinnings 100 1 11 = Panic ARITHMETIC /\
  forall w, calculateWinnings 100 1 11 <> Ok w.
Proof.
  split; [lia|]. split; [lia|]. split; [lia|].
  split; [reflexivity|]. split; [reflexivity|]. intros w. discriminate.
Qed.

(** C10. For every bet, every mine count in [1, 24] and every count of safe
    tiles of at least 1 with (25 - totalMines) * revealedSafeTiles < 25, the
    payout is exactly 0; this covers 24 mines and the one safe tile they
    leave. A cash-out in such a game pays the stake and nothing else: it
    returns whenever the pool covers the stake and the player can receive
    the payment, and whenever it returns the amount transferred is the stake
    and the winnings reported are 0. *)
Theorem no_winnings_below_full_multiplier (env : Env) (bet mines safe : Z) :
  0 <= bet <= uint256_max -> 1 <= mines <= 24 -> 1 <= safe ->
  (25 - mines) * safe < 25 ->
  calculateWinnings bet mines safe = Ok 0 /\
  forall st sender,
    let g := game_of st sender in
    isActive g = true -> betAmount g = bet -> totalMines g = mines ->
    revealedSafeTiles g = safe ->
    (bet <= sharedPoolBalance st -> can_receive env sender = true ->
     cashOut env st sender
     = Ok (set_pool (set_game st sender (closed_game g)) (sharedPoolBalance st - bet),
           [Transfer sender bet; Emit (GameWon sender 0)])) /\
    (forall st' effects,
        cashOut env st sender = Ok (st', effects) ->
        effects = [Transfer sender bet; Emit (GameWon sender 0)]).
Proof.
  intros Hbet Hmines Hsafe Hlow.
  assert (Hmult : (25 - mines) * safe / 25 = 0) by (apply Z.div_small; nia).
  assert (Hzero : calculateWinnings bet mines safe = Ok 0).
  { rewrite calculateWinnings_fits; rewrite ?Hmult, ?Z.mul_0_r;
      unfold uint8_max, uint256_max in *; try lia.
    reflexivity. }
  split; [exact Hzero|].
  intros st sender g Hact Hb Hm Hs. split.
  - intros Hpool Hpay.
    unfold cashOut. fold g. rewrite Hact, Hb, Hm, Hs.
    destruct (Z.ltb_spec 0 safe); [|lia].
    rewrite !require_true, !bind_ret, Hzero, bind_ret.
    rewrite checked_add_fits, bind_ret by lia.
    destruct (Z.ltb_spec (sharedPoolBalance st) (0 + bet)); [lia|].
    rewrite bind_ret, checked_add_fits, bind_ret by lia.
    rewrite checked_sub_fits, bind_ret by lia.
    rewrite transfer_accepted, bind_ret by assumption.
    rewrite Z.add_0_r.
    replace (mkGame (player g) bet mines safe (revealedTiles g) (mineLocations g) false)
      with (closed_game g); [reflexivity|].
    unfold closed_game. rewrite Hb, Hm, Hs. reflexivity.
  - intros st' effects Hrun. apply cashOut_Ok in Hrun. cbv zeta in Hrun. fold g in Hrun.
    destruct Hrun as (_ & _ & theoretical & realized & Hcalc & _ & Hclamp & _ & _ & ->).
    rewrite Hb, Hm, Hs, Hzero in Hcalc. inversion Hcalc; subst theoretical.
    rewrite Hb in *.
    destruct (Z.ltb_spec (sharedPoolBalance st) (0 + bet)).
    + destruct Hclamp as [Hcover _]. lia.
    + subst realized. rewrite Z.add_0_r. reflexivity.
Qed.

(** * The theorems at concrete inputs *)

Lemma reachable_started_state : reachable local_node started_state.
Proof.
  apply reachable_exec; [apply reachable_deployed|].
  vm_compute. repeat split; discriminate.
Defined.

Lemma reachable_one_safe_state : reachable local_node one_safe_state.
Proof.
  apply reachable_exec; [apply reachable_started_state|].
  vm_compute. repeat split; discriminate.
Defined.

(** A start with no stake is rejected, and so is the second reveal of
    tile 0. *)
Lemma zero_stake_and_second_reveal_rejected :
  (call local_node deployed alice (StartGame 1000 quiet_timestamp 0 3)
   = Revert "Bet amount must be greater than 0" /\
   exec local_node deployed alice (StartGame 1000 quiet_timestamp 0 3) = deployed) /\
  (revealTile started_state alice 0
   = Ok (one_safe_state, [Emit (TileRevealed alice 0 false)]) /\
   exists reason,
     violation one_safe_state alice (RevealTile 0) reason /\
     call local_node one_safe_state alice (RevealTile 0) = Revert reason /\
     exec local_node one_safe_state alice (RevealTile 0) = one_safe_state).
Proof.
  split.
  - apply (proj1 (violations_are_rejected local_node deployed alice)).
    apply zero_stake.
  - assert (Hrun : revealTile started_state alice 0
                   = Ok (one_safe_state, [Emit (TileRevealed alice 0 false)]))
      by (vm_compute; reflexivity).
    split; [exact Hrun|].
    apply (proj2 (violations_are_rejected local_node started_state alice)
                 0 one_safe_state [Emit (TileRevealed alice 0 false)]);
      [lia | exact Hrun].
Defined.

Lemma mineLocations_started_state :
  mineLocations (game_of started_state alice) = [24; 10; 19].
Proof. vm_compute. reflexivity. Qed.

(** The start of [alice] on the deployed contract leaves counter and count
    at 0; her reveal of tile 0, which is safe, takes both to 1, and a reveal
    of tile 24, a mine, leaves them where they are. *)
Lemma counter_follows_start_and_reveals :
  (reachable local_node deployed /\ reachable local_node started_state /\
   NoDup (draws local_node quiet_timestamp alice (Z.to_nat 3)) /\
   isActive (game_of started_state alice) = true /\
   revealedTiles (game_of started_state alice) !! Z.to_nat 0 = Some false /\
   revealedTiles (game_of started_state alice) !! Z.to_nat 24 = Some false /\
   (0 ∉ mineLocations (game_of started_state alice)) /\
   24 ∈ mineLocations (game_of started_state alice)) /\
  (exists enough, forall gas, (enough <= gas)%nat ->
     exists st' effects,
       startGame local_node gas deployed quiet_timestamp alice 100 3 = Ok (st', effects) /\
       revealedSafeTiles (game_of st' alice) = 0 /\
       safe_revealed (game_of st' alice) = 0) /\
  (exists st' effects,
     revealTile started_state alice 0 = Ok (st', effects) /\
     revealedSafeTiles (game_of st' alice)
     = revealedSafeTiles (game_of started_state alice) + 1 /\
     safe_revealed (game_of st' alice)
     = safe_revealed (game_of started_state alice) + 1) /\
  (exists st' effects,
     revealTile started_state alice 24 = Ok (st', effects) /\
     revealedSafeTiles (game_of st' alice)
     = revealedSafeTiles (game_of started_state alice) /\
     safe_revealed (game_of st' alice) = safe_revealed (game_of started_state alice)).
Proof.
  assert (Hnd : NoDup (draws local_node quiet_timestamp alice (Z.to_nat 3))).
  { change (Z.to_nat 3) with 3%nat. rewrite draws_quiet.
    repeat (apply NoDup_cons; split;
            [intros Hin; repeat (apply elem_of_cons in Hin; destruct Hin as [Hin|Hin];
                                 [discriminate|]); by apply elem_of_nil in Hin|]).
    apply NoDup_nil_2. }
  assert (Hact : isActive (game_of started_state alice) = true)
    by (vm_compute; reflexivity).
  assert (Hidden0 : revealedTiles (game_of started_state alice) !! Z.to_nat 0 = Some false)
    by (vm_compute; reflexivity).
  assert (Hidden24 : revealedTiles (game_of started_state alice) !! Z.to_nat 24 = Some false)
    by (vm_compute; reflexivity).
  assert (Hsafe : 0 ∉ mineLocations (game_of started_state alice)).
  { rewrite mineLocations_started_state. intros Hin.
    repeat (apply elem_of_cons in Hin; destruct Hin as [Hin|Hin]; [discriminate|]).
    by apply elem_of_nil in Hin. }
  assert (Hmine : 24 ∈ mineLocations (game_of started_state alice)).
  { rewrite mineLocations_started_state. left. }
  split; [auto 10 using reachable_deployed, reachable_started_state|].
  destruct (counter_counts_safe_reveals local_node deployed alice (reachable_deployed _))
    as (_ & Hstart & _).
  destruct (counter_counts_safe_reveals local_node started_state alice
              reachable_started_state) as (_ & _ & Hreveal).
  split; [|split].
  - destruct (Hstart quiet_timestamp 100 3 ltac:(lia) ltac:(lia) eq_refl Hnd
                     ltac:(vm_compute; discriminate)) as [enough Hruns].
    exists enough. intros gas Hgas.
    destruct (Hruns gas Hgas) as (st' & effects & Hrun & _ & Hzero & Hcount).
    exists st', effects. auto.
  - destruct (Hreveal 0 ltac:(lia) Hact Hidden0)
      as (st' & effects & Hrun & _ & _ & _ & _ & Hstep).
    exists st', effects. split; [exact Hrun|]. exact (Hstep Hsafe).
  - destruct (Hreveal 24 ltac:(lia) Hact Hidden24)
      as (st' & effects & Hrun & _ & _ & _ & Hstep & _).
    exists st', effects. split; [exact Hrun|]. exact (Hstep Hmine).
Defined.

(** The reveal of tile 0, which is hidden and safe, right after the start. *)
Lemma revealTile_effect_on_first_tile :
  (reachable local_node started_state /\ 0 <= 0 < 25 /\
   isActive (game_of started_state alice) = true /\
   revealedTiles (game_of started_state alice) !! Z.to_nat 0 = Some false) /\
  exists st' effects,
    revealTile started_state alice 0 = Ok (st', effects) /\
    sharedPoolBalance st' = sharedPoolBalance started_state.
Proof.
  assert (Hact : isActive (game_of started_state alice) = true)
    by (vm_compute; reflexivity).
  assert (Hidden : revealedTiles (game_of started_state alice) !! Z.to_nat 0 = Some false)
    by (vm_compute; reflexivity).
  split.
  - split; [apply reachable_started_state|]. split; [lia|]. split; assumption.
  - destruct (revealTile_effect local_node started_state alice 0
                reachable_started_state ltac:(lia) Hact Hidden)
      as (st' & effects & Hrun & Hpool & _).
    exists st', effects. split; assumption.
Defined.

(** With 24 mines the one safe reveal earns nothing, and the cash-out pays
    the stake. *)
Lemma no_winnings_with_24_mines :
  (0 <= 100 <= uint256_max /\ 1 <= 24 <= 24 /\ 1 <= 1 /\ (25 - 24) * 1 < 25) /\
  calculateWinnings 100 24 1 = Ok 0 /\
  cashOut local_node stake_only_state alice
  = Ok (set_pool (set_game stake_only_state alice
                    (closed_game (game_of stake_only_state alice))) (100 - 100),
        [Transfer alice 100; Emit (GameWon alice 0)]).
Proof.
  assert (Hbet : 0 <= 100 <= uint256_max) by (unfold uint256_max; lia).
  split; [repeat split; try lia; apply Hbet|].
  destruct (no_winnings_below_full_multiplier local_node 100 24 1 Hbet
              ltac:(lia) ltac:(lia) ltac:(lia))
    as [Hzero Hcash].
  split; [exact Hzero|].
  apply (proj1 (Hcash stake_only_state alice eq_refl eq_refl eq_refl eq_refl)).
  - simpl. lia.
  - reflexivity.
Defined.

(** The pool of 50 is drained by [alice], and stays where it is when the
    vault contract, which cannot receive value, asks for it. *)
Lemma withdrawHouseFunds_by_account_and_by_vault :
  (can_receive node_with_vault alice = true /\
   can_receive node_with_vault vault = false) /\
  (exists st',
     call node_with_vault funded_state alice WithdrawHouseFunds
     = Ok (st', [Transfer alice (sharedPoolBalance funded_state)]) /\
     sharedPoolBalance st' = 0) /\
  exec node_with_vault funded_state vault WithdrawHouseFunds = funded_state.
Proof.
  split; [split; reflexivity|].
  destruct (withdrawHouseFunds_drains_pool node_with_vault funded_state alice)
    as [Hpaid _].
  destruct (withdrawHouseFunds_drains_pool node_with_vault funded_state vault)
    as [_ Hrefused].
  split.
  - destruct (Hpaid eq_refl) as (st' & Hrun & Hzero & _). exists st'. auto.
  - exact (proj2 (Hrefused eq_refl)).
Defined.

(** The claim C9 as the specification states it fails for the vault: the
    pool holds 50, the vault calls [withdrawHouseFunds], nothing is paid and
    the pool still holds 50. *)
Lemma withdrawHouseFunds_by_vault_pays_nothing :
  reachable node_with_vault funded_state /\
  sharedPoolBalance funded_state = 50 /\
  call node_with_vault funded_state vault WithdrawHouseFunds = TransferFailed /\
  sharedPoolBalance (exec node_with_vault funded_state vault WithdrawHouseFunds) = 50 /\
  ~ (exists st' effects,
       call node_with_vault funded_state vault WithdrawHouseFunds = Ok (st', effects) /\
       sharedPoolBalance st' = 0).
Proof.
  split.
  { apply reachable_exec; [apply reachable_deployed|].
    vm_compute. repeat split; discriminate. }
  split; [reflexivity|]. split; [reflexivity|]. split; [reflexivity|].
  intros (st' & effects & Hrun & _). discriminate Hrun.
Qed.

(** * Bounds on the winnings *)

(** The multiplier fits a [uint8] product divided by 25, so it is at most
    10, and the winnings are at most a tenth of the bet. *)
Lemma calculateWinnings_bounds (betAmount totalMines revealedSafeTiles winnings : Z) :
  0 <= betAmount -> 0 <= revealedSafeTiles ->
  calculateWinnings betAmount totalMines revealedSafeTiles = Ok winnings ->
  0 <= winnings /\ 10 * winnings <= betAmount.
Proof.
  intros Hb Hs Hrun. apply calculateWinnings_Ok in Hrun.
  destruct Hrun as [(_ & ->) | (Hs0 & Hm & Hp & _ & ->)]; [lia|].
  set (multiplier := (25 - totalMines) * revealedSafeTiles / 25).
  assert (Hmult : 0 <= multiplier <= 10).
  { unfold multiplier, uint8_max in *. split.
    - apply Z.div_pos; [nia | lia].
    - assert ((25 - totalMines) * revealedSafeTiles / 25 < 11)
        by (apply Z.div_lt_upper_bound; lia).
      lia. }
  split.
  - apply Z.div_pos; [nia | lia].
  - assert (betAmount * multiplier / 100 <= betAmount * 10 / 100)
      by (apply Z.div_le_mono; nia).
    assert (betAmount * 10 / 100 = betAmount / 10).
    { replace 100 with (10 * 10) by reflexivity.
      rewrite Z.mul_comm, Z.div_mul_cancel_l by lia. reflexivity. }
    pose proof (Z.mul_div_le betAmount 10). lia.
Qed.

(** * Every call and the records *)

Section RecordFacts.

Variable env : Env.

(** What a call that returns has written: the record of the sender, or
    nothing but the pool. *)
Lemma call_Ok_writes (st : State) (sender : Z) (c : Call) st' effects :
  call env st sender c = Ok (st', effects) ->
  exists pool, st' = set_pool st pool \/ exists g, st' = set_pool (set_game st sender g) pool.
Proof.
  destruct c as [gas timestamp value numberOfMines|tileIndex| |value|]; simpl; intros Hrun.
  - apply startGame_Ok in Hrun. destruct Hrun as (_ & _ & _ & _ & _ & -> & _). eauto.
  - apply revealTile_Ok in Hrun. cbv zeta in Hrun.
    destruct Hrun as (_ & _ & _ & isMine & _ & Hres).
    exists (sharedPoolBalance st). right.
    destruct isMine; [destruct Hres as (-> & _) | destruct Hres as (_ & -> & _)]; eauto.
  - apply cashOut_Ok in Hrun. cbv zeta in Hrun.
    destruct Hrun as (_ & _ & theoretical & realized & _ & _ & _ & _ & -> & _). eauto.
  - unfold addHouseFunds in Hrun. bind_inv Hrun as pool Hpool.
    inversion Hrun. eauto.
  - apply withdrawHouseFunds_Ok in Hrun. destruct Hrun as (_ & -> & ->). eauto.
Qed.

Lemma played_fresh (timestamp sender value numberOfMines : Z) :
  0 < value <= uint256_max -> 1 <= numberOfMines <= 24 ->
  NoDup (draws env timestamp sender (Z.to_nat numberOfMines)) ->
  played sender (fresh_game env timestamp sender value numberOfMines).
Proof.
  intros Hv Hm Hnd. unfold played, fresh_game.
  cbn [player betAmount totalMines revealedTiles mineLocations isActive].
  rewrite length_replicate, length_draws.
  repeat split; try assumption; try lia.
  - eapply draws_range; eassumption.
  - eapply draws_range; eassumption.
  - intros _ i Hrev. apply lookup_replicate in Hrev. destruct Hrev. discriminate.
Qed.

Lemma played_keep (who : Z) (g g' : Game) :
  played who g ->
  player g' = player g -> betAmount g' = betAmount g ->
  totalMines g' = totalMines g -> mineLocations g' = mineLocations g ->
  length (revealedTiles g') = 25%nat ->
  (isActive g' = true ->
   forall i, revealedTiles g' !! i = Some true -> Z.of_nat i ∉ mineLocations g) ->
  played who g'.
Proof.
  intros (Hp & Hbet & Hm & Htiles & Hlen & Hnd & Hrange & Hclean) Ep Eb Em El Ht Hc.
  unfold played. rewrite Ep, Eb, Em, El. auto 10.
Qed.

(** In every state the contract can reach, the record at a key is the zero
    record or a played one. *)
Lemma played_call (st : State) (sender : Z) (c : Call) st' effects :
  well_typed c ->
  call env st sender c = Ok (st', effects) ->
  (forall who, game_of st who = no_game \/ played who (game_of st who)) ->
  forall who, game_of st' who = no_game \/ played who (game_of st' who).
Proof.
  intros Hty Hrun Hinv who.
  destruct (decide (sender = who)) as [->|Hne].
  2:{ apply call_Ok_writes in Hrun. destruct Hrun as (pool & [-> | (g & ->)]).
      - apply Hinv.
      - rewrite game_of_set_pool, game_of_set_game_other by assumption. apply Hinv. }
  destruct c as [gas timestamp value numberOfMines|tileIndex| |value|]; simpl in Hrun.
  - apply startGame_Ok in Hrun. destruct Hrun as (Hv & Hm & _ & Hnd & _ & -> & _).
    rewrite game_of_set_pool, game_of_set_game. right.
    destruct Hty as (_ & Hvalue & _). apply played_fresh; auto with lia.
  - apply revealTile_Ok in Hrun. cbv zeta in Hrun.
    destruct Hrun as (Ht & Hact & Hidden & isMine & Hscan & Hres).
    destruct (Hinv who) as [Hnone | Hplayed].
    { rewrite Hnone in Hact. discriminate. }
    pose proof Hplayed as (_ & _ & _ & Htiles & Hlen & _ & _ & Hclean).
    rewrite Hlen, scan_all in Hscan.
    right. destruct isMine.
    + destruct Hres as (-> & _). rewrite game_of_set_game.
      apply (played_keep who (game_of st who)); try reflexivity; try assumption.
      * cbn [lost_game revealedTiles]. rewrite length_insert. assumption.
      * discriminate.
    + destruct Hres as (_ & -> & _). rewrite game_of_set_game.
      assert (Hsafe : tileIndex ∉ mineLocations (game_of st who)).
      { intros Hin. rewrite bool_decide_eq_true_2 in Hscan by assumption.
        discriminate. }
      apply (played_keep who (game_of st who)); try reflexivity; try assumption.
      * cbn [advanced_game revealedTiles]. rewrite length_insert. assumption.
      * cbn [advanced_game revealedTiles isActive]. intros _ i Hrev.
        destruct (decide (i = Z.to_nat tileIndex)) as [->|Hi].
        -- simpl in Hty. rewrite Z2Nat.id by lia. assumption.
        -- rewrite list_lookup_insert_ne in Hrev by congruence. auto.
  - apply cashOut_Ok in Hrun. cbv zeta in Hrun.
    destruct Hrun as (Hact & _ & theoretical & realized & _ & _ & _ & _ & -> & _).
    rewrite game_of_set_pool, game_of_set_game.
    destruct (Hinv who) as [Hnone | Hplayed].
    { rewrite Hnone in Hact. discriminate. }
    pose proof Hplayed as (_ & _ & _ & Htiles & _).
    right. apply (played_keep who (game_of st who)); try reflexivity; try assumption.
    discriminate.
  - unfold addHouseFunds in Hrun. bind_inv Hrun as pool Hpool.
    inversion Hrun. subst. apply Hinv.
  - apply withdrawHouseFunds_Ok in Hrun. destruct Hrun as (_ & -> & ->). apply Hinv.
Qed.

Lemma reachable_played (st : State) :
  reachable env st ->
  forall who, game_of st who = no_game \/ played who (game_of st who).
Proof.
  induction 1 as [|st sender c Hreach IH Hty].
  - intros who. left. reflexivity.
  - unfold exec. destruct (call env st sender c) as [[st' effects]| | | |] eqn:Hrun;
      try exact IH.
    simpl. eapply played_call; eassumption.
Qed.

Lemma reachable_active_played (st : State) (who : Z) :
  reachable env st -> isActive (game_of st who) = true ->
  played who (game_of st who).
Proof.
  intros Hreach Hact. destruct (reachable_played st Hreach who) as [Hnone|Hplayed].
  - rewrite Hnone in Hact. discriminate.
  - exact Hplayed.
Qed.

(** A cash-out that returns, in a reachable state: the realized winnings
    are the smaller of the theoretical winnings and what the pool holds
    above the stake. *)
Lemma cashOut_Ok_reachable (st : State) (sender : Z) st' effects :
  reachable env st ->
  cashOut env st sender = Ok (st', effects) ->
  let g := game_of st sender in
  exists theoretical,
    calculateWinnings (betAmount g) (totalMines g) (revealedSafeTiles g) = Ok theoretical /\
    0 <= theoretical /\ 10 * theoretical <= betAmount g /\
    0 < betAmount g <= sharedPoolBalance st /\
    let realized := Z.min theoretical (sharedPoolBalance st - betAmount g) in
    st' = set_pool (set_game st sender (closed_game g))
                   (sharedPoolBalance st - (betAmount g + realized)) /\
    effects = [Transfer sender (betAmount g + realized); Emit (GameWon sender realized)].
Proof.
  intros Hreach Hrun g. subst g. apply cashOut_Ok in Hrun. cbv zeta in Hrun.
  destruct Hrun as (Hact & Hcnt & theoretical & realized & Hcalc & _ & Hclamp & Hcover & -> & ->).
  destruct (reachable_active_played st sender Hreach Hact) as (_ & Hbet & _).
  assert (Hw := Hcalc). apply calculateWinnings_bounds in Hw; [|lia..].
  destruct Hw as [Hw0 Hw10].
  exists theoretical. split; [exact Hcalc|]. split; [exact Hw0|]. split; [exact Hw10|].
  destruct (Z.ltb_spec (sharedPoolBalance st)
                       (theoretical + betAmount (game_of st sender))).
  - destruct Hclamp as [Hstake ->]. split; [lia|]. cbv zeta.
    rewrite Z.min_r by lia. split; reflexivity.
  - subst realized. split; [lia|]. cbv zeta.
    rewrite Z.min_l by lia. split; reflexivity.
Qed.

(** The pool stays a [uint256]. *)
Lemma reachable_pool_range (st : State) :
  reachable env st -> 0 <= sharedPoolBalance st <= uint256_max.
Proof.
  induction 1 as [|st sender c Hreach IH Hty].
  - simpl. unfold uint256_max. lia.
  - unfold exec. destruct (call env st sender c) as [[st' effects]| | | |] eqn:Hrun;
      try exact IH.
    cbn [fst].
    destruct c as [gas timestamp value numberOfMines|tileIndex| |value|]; simpl in Hrun.
    + apply startGame_Ok in Hrun. destruct Hrun as (Hv & _ & _ & _ & Hfit & -> & _).
      cbn [sharedPoolBalance set_pool]. lia.
    + apply revealTile_Ok in Hrun. cbv zeta in Hrun.
      destruct Hrun as (_ & _ & _ & isMine & _ & Hres).
      destruct isMine; [destruct Hres as (-> & _) | destruct Hres as (_ & -> & _)];
        exact IH.
    + apply cashOut_Ok_reachable in Hrun; [|assumption]. cbv zeta in Hrun.
      destruct Hrun as (theoretical & _ & Hw0 & _ & Hbet & -> & _).
      cbn [sharedPoolBalance set_pool]. lia.
    + unfold addHouseFunds in Hrun. bind_inv Hrun as pool Hpool.
      apply checked_add_Ok in Hpool. destruct Hpool as [-> Hfit].
      inversion Hrun. subst. cbn [sharedPoolBalance set_pool]. simpl in Hty. lia.
    + apply withdrawHouseFunds_Ok in Hrun. destruct Hrun as (_ & -> & ->).
      cbn [sharedPoolBalance set_pool]. unfold uint256_max. lia.
Qed.

End RecordFacts.

(** * Counting the tiles that are not mines *)

Lemma length_filter_split {A : Type} (P : A -> Prop) `{!forall x, Decision (P x)}
      (l : list A) :
  (length (filter P l) + length (filter (fun x => ~ P x) l) = length l)%nat.
Proof.
  induction l as [|x l IH]; [reflexivity|].
  destruct (decide (P x)) as [HP|HP].
  - rewrite (filter_cons_True P) by assumption.
    rewrite (filter_cons_False (fun x => ~ P x)) by tauto. simpl. lia.
  - rewrite (filter_cons_False P) by assumption.
    rewrite (filter_cons_True (fun x => ~ P x)) by assumption. simpl. lia.
Qed.

(** Pairwise distinct mines in [0, 25) occupy exactly as many tiles as there
    are mines. *)
Lemma length_mine_tiles (mines : list Z) :
  NoDup mines -> (forall m, m ∈ mines -> 0 <= m < 25) ->
  length (filter (fun i : nat => Z.of_nat i ∈ mines) (seq 0 25)) = length mines.
Proof.
  intros Hnd Hrange.
  rewrite <- (length_fmap Z.of_nat). apply Permutation_length.
  apply NoDup_Permutation.
  - apply NoDup_fmap; [apply Nat2Z.inj'|]. apply NoDup_filter, NoDup_seq.
  - exact Hnd.
  - intros m. rewrite list_elem_of_fmap. split.
    + intros (i & -> & Hi). apply list_elem_of_filter in Hi. tauto.
    + intros Hm. exists (Z.to_nat m). pose proof (Hrange m Hm).
      split; [lia|]. apply list_elem_of_filter. split.
      * rewrite Z2Nat.id by lia. assumption.
      * apply elem_of_seq. lia.
Qed.

Lemma safe_revealed_le_safe_tiles (g : Game) :
  NoDup (mineLocations g) -> (forall m, m ∈ mineLocations g -> 0 <= m < 25) ->
  safe_revealed g <= 25 - Z.of_nat (length (mineLocations g)).
Proof.
  intros Hnd Hrange. unfold safe_revealed.
  pose proof (length_filter_split (fun i : nat => Z.of_nat i ∈ mineLocations g) (seq 0 25))
    as Hsplit.
  rewrite length_mine_tiles, length_seq in Hsplit by assumption.
  assert (Hle : (length (filter (safe_and_revealed g) (seq 0 25))
                 <= length (filter (fun i : nat => ~ Z.of_nat i ∈ mineLocations g) (seq 0 25)))%nat).
  { apply submseteq_length, NoDup_submseteq.
    - apply NoDup_filter, NoDup_seq.
    - intros i Hi. apply list_elem_of_filter in Hi. destruct Hi as [[_ Hsafe] Hseq].
      apply list_elem_of_filter. split; assumption. }
  lia.
Qed.

(** * Further properties of the contract *)

Section MoreFacts.

Variable env : Env.

Lemma exec_Ok (st : State) (sender : Z) (c : Call) st' effects :
  call env st sender c = Ok (st', effects) -> exec env st sender c = st'.
Proof. intros Hrun. unfold exec. rewrite Hrun. reflexivity. Qed.

Lemma exec_other_record (st : State) (sender : Z) (c : Call) (other : Z) :
  other <> sender ->
  game_of (exec env st sender c) other = game_of st other.
Proof.
  intros Hne. unfold exec.
  destruct (call env st sender c) as [[st' effects]| | | |] eqn:Hrun; try reflexivity.
  apply call_Ok_writes in Hrun. destruct Hrun as (pool & [-> | (g & ->)]).
  - reflexivity.
  - cbn [fst]. rewrite game_of_set_pool, game_of_set_game_other by congruence. reflexivity.
Qed.

(** X1. A transaction never changes the record of anyone but its sender,
    whatever the call and whether it returns or aborts. *)
Theorem other_records_untouched (st : State) (sender : Z) (c : Call) (other : Z) :
  other <> sender ->
  getGameStatus (exec env st sender c) other = getGameStatus st other.
Proof. apply exec_other_record. Qed.

Lemma call_value_flow (st : State) (sender : Z) (c : Call) st' effects :
  call env st sender c = Ok (st', effects) ->
  sharedPoolBalance st' = sharedPoolBalance st + received c - transferred effects /\
  (forall to amount, Transfer to amount ∈ effects -> to = sender).
Proof.
  destruct c as [gas timestamp value numberOfMines|tileIndex| |value|]; simpl; intros Hrun.
  - apply startGame_Ok in Hrun. destruct Hrun as (_ & _ & _ & _ & _ & -> & ->).
    split; [simpl; lia|]. intros to amount Hin.
    apply list_elem_of_singleton in Hin. discriminate.
  - apply revealTile_Ok in Hrun. cbv zeta in Hrun.
    destruct Hrun as (_ & _ & _ & isMine & _ & Hres).
    destruct isMine; [destruct Hres as (-> & ->) | destruct Hres as (_ & -> & ->)].
    + split; [simpl; lia|]. intros to amount Hin.
      repeat (apply elem_of_cons in Hin; destruct Hin as [Hin|Hin]; [discriminate|]).
      by apply elem_of_nil in Hin.
    + split; [simpl; lia|]. intros to amount Hin.
      apply list_elem_of_singleton in Hin. discriminate.
  - apply cashOut_Ok in Hrun. cbv zeta in Hrun.
    destruct Hrun as (_ & _ & theoretical & realized & _ & _ & _ & _ & -> & ->).
    split; [simpl; lia|]. intros to amount Hin.
    apply elem_of_cons in Hin. destruct Hin as [Hin|Hin]; [congruence|].
    apply list_elem_of_singleton in Hin. discriminate.
  - unfold addHouseFunds in Hrun. bind_inv Hrun as pool Hpool.
    apply checked_add_Ok in Hpool. destruct Hpool as [-> _].
    inversion Hrun. subst. split; [simpl; lia|].
    intros to amount Hin. by apply elem_of_nil in Hin.
  - apply withdrawHouseFunds_Ok in Hrun. destruct Hrun as (_ & -> & ->).
    split; [simpl; lia|]. intros to amount Hin.
    apply list_elem_of_singleton in Hin. congruence.
Qed.

(** X2. A call that returns changes the pool by exactly the value it
    received less the value it transferred, and every transfer it makes goes
    to its sender. *)
Theorem pool_tracks_value (st : State) (sender : Z) (c : Call) st' effects :
  call env st sender c = Ok (st', effects) ->
  sharedPoolBalance st' = sharedPoolBalance st + received c - transferred effects /\
  (forall to amount, Transfer to amount ∈ effects -> to = sender).
Proof. apply call_value_flow. Qed.

(** X3. Over any sequence of transactions, returned or aborted, the pool
    moves by the net value the sequence brought in: from the deployed
    contract the tracked pool is all value received less all value paid. *)
Theorem pool_tracks_net_flow (st : State) (txs : list (Z * Call)) :
  sharedPoolBalance (run env st txs)
  = sharedPoolBalance st + net_flow env st txs.
Proof.
  revert st. induction txs as [|[sender c] txs IH]; intros st.
  - simpl. lia.
  - change (run env st ((sender, c) :: txs))
      with (run env (exec env st sender c) txs).
    rewrite IH. cbn [net_flow fst snd]. unfold flow, exec.
    destruct (call env st sender c) as [[st' effects]| | | |] eqn:Hrun; try lia.
    apply call_value_flow in Hrun. destruct Hrun as [Hpool _]. cbn [fst snd]. lia.
Qed.

(** X4. In every reachable state the pool is a [uint256]: it is never
    negative and never above 2^256 - 1. *)
Theorem pool_stays_uint256 (st : State) :
  reachable env st -> 0 <= getSharedPoolBalance st <= uint256_max.
Proof. exact (reachable_pool_range env st). Qed.

(** X5. In every reachable state, [getGameStatus] returns for every address
    either the zero record (empty arrays, inactive) or a record owned by that
    address with a positive bet, between 1 and 24 mines, 25 tile flags, and as
    many pairwise distinct mine locations in [0, 25) as [totalMines]; while
    the game is active none of its revealed tiles is a mine. *)
Theorem records_are_well_formed (st : State) (who : Z) :
  reachable env st ->
  getGameStatus st who = no_game \/ played who (getGameStatus st who).
Proof. intros Hreach. exact (reachable_played env st Hreach who). Qed.

(** X6. In an active game of a reachable state the counter
    [revealedSafeTiles] is the number of revealed tiles. *)
Theorem active_counter_counts_revealed (st : State) (who : Z) :
  reachable env st -> isActive (game_of st who) = true ->
  revealedSafeTiles (game_of st who) = revealed_count (game_of st who).
Proof.
  intros Hreach Hact.
  destruct (reachable_game_inv env st Hreach who) as [Hcount _].
  destruct (reachable_active_played env st who Hreach Hact) as (_ & _ & _ & _ & _ & _ & _ & Hclean).
  rewrite Hcount. unfold safe_revealed, revealed_count. f_equal.
  apply length_filter_same. intros i _. unfold safe_and_revealed.
  split; [tauto|]. intros Hrev. split; [assumption|]. apply Hclean; assumption.
Qed.

Lemma reachable_counter_range (st : State) (who : Z) :
  reachable env st ->
  0 <= revealedSafeTiles (game_of st who) <= 25 - totalMines (game_of st who).
Proof.
  intros Hreach.
  destruct (reachable_game_inv env st Hreach who) as [Hcount _].
  destruct (reachable_played env st Hreach who) as [Hnone | Hplayed].
  - rewrite Hnone. simpl. lia.
  - destruct Hplayed as (_ & _ & Hm & _ & Hlen & Hnd & Hrange & _).
    pose proof (safe_revealed_bound (game_of st who)).
    pose proof (safe_revealed_le_safe_tiles (game_of st who) Hnd Hrange).
    rewrite Hcount. lia.
Qed.

(** X7. In every reachable state the counter of every record is at most the
    number of tiles that are not mines: 0 <= revealedSafeTiles <=
    25 - totalMines. In particular the [uint8] counter cannot overflow. *)
Theorem counter_at_most_safe_tiles (st : State) (who : Z) :
  reachable env st ->
  0 <= revealedSafeTiles (game_of st who) <= 25 - totalMines (game_of st who).
Proof. apply reachable_counter_range. Qed.

(** X8. A cash-out that returns in a reachable state pays the stake plus the
    realized winnings, where the realized winnings are the smaller of the
    theoretical winnings and what the pool holds above the stake; they are
    never negative and never more than a tenth of the stake, the payment
    never exceeds the pool, and the pool drops by exactly the payment. *)
Theorem cashOut_pays_within_bounds (st : State) (sender : Z) st' effects :
  reachable env st ->
  cashOut env st sender = Ok (st', effects) ->
  exists theoretical realized,
    calculateWinnings (betAmount (game_of st sender)) (totalMines (game_of st sender))
                      (revealedSafeTiles (game_of st sender)) = Ok theoretical /\
    realized = Z.min theoretical (sharedPoolBalance st - betAmount (game_of st sender)) /\
    effects = [Transfer sender (betAmount (game_of st sender) + realized);
               Emit (GameWon sender realized)] /\
    0 <= realized /\ 10 * realized <= betAmount (game_of st sender) /\
    betAmount (game_of st sender) + realized <= sharedPoolBalance st /\
    sharedPoolBalance st'
    = sharedPoolBalance st - (betAmount (game_of st sender) + realized).
Proof.
  intros Hreach Hrun. apply (cashOut_Ok_reachable env) in Hrun; [|assumption].
  cbv zeta in Hrun.
  destruct Hrun as (theoretical & Hcalc & Hw0 & Hw10 & Hbet & -> & ->).
  exists theoretical, (Z.min theoretical (sharedPoolBalance st - betAmount (game_of st sender))).
  repeat split; try assumption; try reflexivity; lia.
Qed.

(** X9. After a cash-out that returned, the same player can neither cash
    out again nor reveal a tile: both calls are rejected with "No active
    game". *)
Theorem cashOut_ends_the_game (st : State) (sender : Z) st' effects :
  cashOut env st sender = Ok (st', effects) ->
  cashOut env st' sender = Revert "No active game" /\
  forall tileIndex, tileIndex < 25 ->
    revealTile st' sender tileIndex = Revert "No active game".
Proof.
  intros Hrun. apply cashOut_Ok in Hrun. cbv zeta in Hrun.
  destruct Hrun as (_ & _ & theoretical & realized & _ & _ & _ & _ & -> & _).
  split.
  - unfold cashOut. rewrite game_of_set_pool, game_of_set_game. reflexivity.
  - intros tileIndex Ht. unfold revealTile.
    destruct (Z.ltb_spec tileIndex 25); [|lia].
    rewrite game_of_set_pool, game_of_set_game. reflexivity.
Qed.

(** X10. After a reveal that hit a mine (it emitted [GameLost]), the player
    is inactive and a cash-out is rejected with "No active game": the stake
    of a lost game cannot be claimed. *)
Theorem lost_game_cannot_cash_out (st : State) (sender tileIndex : Z) st' effects :
  revealTile st sender tileIndex = Ok (st', effects) ->
  Emit (GameLost sender) ∈ effects ->
  isActive (game_of st' sender) = false /\
  cashOut env st' sender = Revert "No active game".
Proof.
  intros Hrun Hlost. apply revealTile_Ok in Hrun. cbv zeta in Hrun.
  destruct Hrun as (_ & _ & _ & isMine & _ & Hres). destruct isMine.
  - destruct Hres as (-> & _). rewrite game_of_set_game. split; [reflexivity|].
    unfold cashOut. rewrite game_of_set_game. reflexivity.
  - destruct Hres as (_ & _ & ->). apply list_elem_of_singleton in Hlost. discriminate.
Qed.

End MoreFacts.

(** X11. Whenever [calculateWinnings] returns for an unsigned bet and
    count, the winnings are between 0 and a tenth of the bet: the [uint8]
    product caps the multiplier at 10 (hundredths). *)
Theorem winnings_at_most_a_tenth (betAmount totalMines revealedSafeTiles winnings : Z) :
  0 <= betAmount -> 0 <= revealedSafeTiles ->
  calculateWinnings betAmount totalMines revealedSafeTiles = Ok winnings ->
  0 <= winnings /\ 10 * winnings <= betAmount.
Proof. apply calculateWinnings_bounds. Qed.

Section StartFacts.

Variable env : Env.

(** With pairwise distinct hashes but fewer units of gas than slots, the
    loop stops for lack of gas. *)
Lemma place_mines_no_gas (timestamp sender : Z) (left i gas : nat) :
  NoDup (draws env timestamp sender (i + left)) -> (gas < left)%nat ->
  place_mines env left i gas timestamp sender
              (draws env timestamp sender i ++ replicate left 0)
  = OutOfGas.
Proof.
  revert i gas. induction left as [|left IH]; intros i gas Hnd Hgas; [lia|].
  rewrite place_mines_S.
  destruct gas as [|gas]; [reflexivity|].
  replace (i + S left)%nat with (S i + left)%nat in Hnd by lia.
  assert (Hfree : draw env timestamp sender i ∉ draws env timestamp sender i).
  { apply NoDup_draws_prefix, NoDup_draws_S in Hnd. tauto. }
  rewrite draw_location_free by (apply length_draws || assumption).
  rewrite bind_ret. cbn [fst snd]. rewrite fill_slot, <- draws_S.
  apply IH; [assumption | lia].
Qed.

(** With pairwise distinct hashes and gas for the loop but not for the rest
    of the call, the start stops for lack of gas after the loop. *)
Lemma startGame_short_of_gas gas st timestamp sender value numberOfMines :
  0 < value -> 1 <= numberOfMines <= 24 ->
  isActive (game_of st sender) = false ->
  NoDup (draws env timestamp sender (Z.to_nat numberOfMines)) ->
  (gas < Z.to_nat numberOfMines + finish_gas env numberOfMines)%nat ->
  startGame env gas st timestamp sender value numberOfMines = OutOfGas.
Proof.
  intros Hv Hm Hact Hnd Hgas. unfold startGame.
  destruct (Z.ltb_spec 0 value); [|lia].
  destruct (Z.leb_spec 1 numberOfMines); [|lia].
  destruct (Z.leb_spec numberOfMines 24); [|lia].
  rewrite Hact. cbn [andb negb]. rewrite !require_true, !bind_ret.
  change (replicate (Z.to_nat numberOfMines) 0)
    with (draws env timestamp sender 0 ++ replicate (Z.to_nat numberOfMines) 0).
  destruct (decide (Z.to_nat numberOfMines <= gas)%nat) as [Hloop|Hloop].
  - rewrite place_mines_distinct by assumption.
    rewrite bind_ret. cbn [fst snd]. rewrite charge_short by lia. reflexivity.
  - rewrite place_mines_no_gas by (assumption || lia). reflexivity.
Qed.

Lemma startGame_pool_overflow gas st timestamp sender value numberOfMines :
  0 < value -> 1 <= numberOfMines <= 24 ->
  isActive (game_of st sender) = false ->
  NoDup (draws env timestamp sender (Z.to_nat numberOfMines)) ->
  (Z.to_nat numberOfMines + finish_gas env numberOfMines <= gas)%nat ->
  uint256_max < sharedPoolBalance st + value ->
  startGame env gas st timestamp sender value numberOfMines = Panic ARITHMETIC.
Proof.
  intros Hv Hm Hact Hnd Hgas Hover. unfold startGame.
  destruct (Z.ltb_spec 0 value); [|lia].
  destruct (Z.leb_spec 1 numberOfMines); [|lia].
  destruct (Z.leb_spec numberOfMines 24); [|lia].
  rewrite Hact. cbn [andb negb]. rewrite !require_true, !bind_ret.
  change (replicate (Z.to_nat numberOfMines) 0)
    with (draws env timestamp sender 0 ++ replicate (Z.to_nat numberOfMines) 0).
  rewrite place_mines_distinct by (assumption || lia).
  rewrite bind_ret. cbn [fst snd]. rewrite charge_fits, bind_ret by lia.
  unfold checked_add.
  destruct (Z.leb_spec (sharedPoolBalance st + value) uint256_max); [lia|].
  reflexivity.
Qed.

(** X12. A start whose three preconditions hold is never rejected with a
    reason; what it does is decided by the hashes, the pool and whether the
    gas is enough. If two slots hash to the same tile it runs out of gas
    whatever the gas. If the slots hash to pairwise distinct tiles there is
    an amount of gas from which on the call no longer runs out of gas: it
    then aborts with [Panic(0x11)] if the pool would leave [uint256], and
    otherwise returns with the fresh record written, the stake added to the
    pool and [GameStarted] emitted; below that amount it runs out of gas. *)
Theorem startGame_valid_outcome st timestamp sender value numberOfMines :
  0 < value -> 1 <= numberOfMines <= 24 ->
  isActive (game_of st sender) = false ->
  (~ NoDup (draws env timestamp sender (Z.to_nat numberOfMines)) ->
   forall gas, startGame env gas st timestamp sender value numberOfMines = OutOfGas) /\
  (NoDup (draws env timestamp sender (Z.to_nat numberOfMines)) ->
   exists enough, forall gas,
     startGame env gas st timestamp sender value numberOfMines
     = if (enough <=? gas)%nat
       then if bool_decide (sharedPoolBalance st + value <= uint256_max)
            then Ok (set_pool
                       (set_game st sender
                          (fresh_game env timestamp sender value numberOfMines))
                       (sharedPoolBalance st + value),
                     [Emit (GameStarted sender value numberOfMines)])
            else Panic ARITHMETIC
       else OutOfGas).
Proof.
  intros Hv Hm Hact. split.
  - intros Hdup gas. apply startGame_collision; assumption.
  - intros Hnd. exists (Z.to_nat numberOfMines + finish_gas env numberOfMines)%nat.
    intros gas.
    destruct (Nat.leb_spec (Z.to_nat numberOfMines + finish_gas env numberOfMines) gas)
      as [Hgas|Hgas].
    + case_bool_decide as Hfit.
      * apply startGame_distinct; assumption.
      * apply startGame_pool_overflow; try assumption. lia.
    + apply startGame_short_of_gas; assumption.
Qed.

(** X13. A game with a single mine can always be started: with a positive
    stake, no active game and room in the pool, [startGame(1)] returns for
    every hash once the gas is enough, and the mine lies where slot 0 hashes
    to. *)
Theorem startGame_one_mine_returns st timestamp sender value :
  0 < value -> isActive (game_of st sender) = false ->
  sharedPoolBalance st + value <= uint256_max ->
  exists enough, forall gas, (enough <= gas)%nat ->
    exists st',
      startGame env gas st timestamp sender value 1
      = Ok (st', [Emit (GameStarted sender value 1)]) /\
      mineLocations (game_of st' sender) = [draw env timestamp sender 0] /\
      isActive (game_of st' sender) = true.
Proof.
  intros Hv Hact Hfit. exists (Z.to_nat 1 + finish_gas env 1)%nat.
  intros gas Hgas. eexists. split.
  - apply startGame_distinct; try assumption; try lia.
    change (Z.to_nat 1) with 1%nat. apply NoDup_singleton.
  - rewrite game_of_set_pool, game_of_set_game. split; reflexivity.
Qed.

(** X14. [addHouseFunds] returns whenever the pool stays a [uint256]; it
    adds the value to the pool and touches no record. Afterwards every
    address that can receive the payment can take the whole pool, old balance
    and new funds, with [withdrawHouseFunds]; for an address that cannot
    receive value that call aborts on the transfer. *)
Theorem added_funds_can_be_withdrawn_by_anyone (st : State) (funder taker value : Z) :
  sharedPoolBalance st + value <= uint256_max ->
  exists st',
    call env st funder (AddHouseFunds value) = Ok (st', []) /\
    games st' = games st /\
    sharedPoolBalance st' = sharedPoolBalance st + value /\
    (can_receive env taker = true ->
     call env st' taker WithdrawHouseFunds
     = Ok (set_pool st 0, [Transfer taker (sharedPoolBalance st + value)])) /\
    (can_receive env taker = false ->
     call env st' taker WithdrawHouseFunds = TransferFailed).
Proof.
  intros Hfit. eexists. simpl. unfold addHouseFunds.
  rewrite checked_add_fits, bind_ret by assumption.
  split; [reflexivity|]. split; [reflexivity|]. split; [reflexivity|].
  unfold withdrawHouseFunds. split; intros Hpay.
  - rewrite transfer_accepted, bind_ret by assumption. reflexivity.
  - rewrite transfer_refused by assumption. reflexivity.
Qed.

(** X15. An active game in a reachable state can always be ended by its
    player: some tile index below 25 (a mine that is still hidden) makes
    [revealTile] return and leaves the game inactive. So a player is never
    locked out of starting a new game, even where [cashOut] aborts. *)
Theorem active_game_can_be_ended (st : State) (who : Z) :
  reachable env st -> isActive (game_of st who) = true ->
  exists tileIndex st' effects,
    0 <= tileIndex < 25 /\
    revealTile st who tileIndex = Ok (st', effects) /\
    isActive (game_of st' who) = false.
Proof.
  intros Hreach Hact.
  destruct (reachable_active_played env st who Hreach Hact)
    as (_ & _ & Hm & Htiles & Hlen & _ & Hrange & Hclean).
  pose proof (reachable_counter_range env st who Hreach) as Hcnt.
  assert (Hsome : exists mine, mine ∈ mineLocations (game_of st who)).
  { destruct (mineLocations (game_of st who)) as [|mine mines].
    - simpl in Hlen. lia.
    - exists mine. left. }
  destruct Hsome as [mine Hin].
  pose proof (Hrange mine Hin) as Hmine.
  assert (Hhidden : revealedTiles (game_of st who) !! Z.to_nat mine = Some false).
  { destruct (revealedTiles (game_of st who) !! Z.to_nat mine) as [[|]|] eqn:Hflag.
    - exfalso. apply (Hclean Hact _ Hflag). rewrite Z2Nat.id by lia. exact Hin.
    - reflexivity.
    - apply lookup_ge_None in Hflag. lia. }
  pose proof (revealTile_run st who mine) as Hrun. cbv zeta in Hrun.
  rewrite bool_decide_eq_true_2 in Hrun by assumption.
  exists mine, (set_game st who (lost_game (game_of st who) mine)),
    [Emit (TileRevealed who mine true); Emit (GameLost who)].
  split; [assumption|]. split.
  - apply Hrun; try assumption. unfold uint8_max. lia.
  - rewrite game_of_set_game. reflexivity.
Qed.

(** X16. No call other than a player's own [startGame] changes the owner,
    the bet, the mine count or the mine locations of that player's record,
    and none clears a tile flag that is set: what [startGame] wrote stays
    until the next start, and reveals only accumulate. *)
Theorem record_fixed_between_starts (st : State) (sender : Z) (c : Call) (who : Z) :
  is_start c = false \/ sender <> who ->
  let g := game_of st who in
  let g' := game_of (exec env st sender c) who in
  player g' = player g /\ betAmount g' = betAmount g /\
  totalMines g' = totalMines g /\ mineLocations g' = mineLocations g /\
  (forall i, revealedTiles g !! i = Some true -> revealedTiles g' !! i = Some true).
Proof.
  intros Hc g g'. subst g g'.
  destruct (decide (sender = who)) as [->|Hne].
  2:{ rewrite exec_other_record by congruence. auto. }
  destruct Hc as [Hc|Hc]; [|contradiction].
  unfold exec.
  destruct (call env st who c) as [[st' effects]| | | |] eqn:Hrun; auto.
  cbn [fst].
  destruct c as [gas timestamp value numberOfMines|tileIndex| |value|];
    [discriminate| | | |]; simpl in Hrun.
  - apply revealTile_Ok in Hrun. cbv zeta in Hrun.
    destruct Hrun as (_ & _ & Hidden & isMine & _ & Hres).
    assert (Hkeep : forall i, revealedTiles (game_of st who) !! i = Some true ->
                <[Z.to_nat tileIndex := true]> (revealedTiles (game_of st who)) !! i
                = Some true).
    { intros i Hi. destruct (decide (i = Z.to_nat tileIndex)) as [->|Hne].
      - apply list_lookup_insert_eq. eapply lookup_lt_Some. eassumption.
      - rewrite list_lookup_insert_ne by congruence. assumption. }
    destruct isMine; [destruct Hres as (-> & _) | destruct Hres as (_ & -> & _)];
      rewrite game_of_set_game; auto.
  - apply cashOut_Ok in Hrun. cbv zeta in Hrun.
    destruct Hrun as (_ & _ & theoretical & realized & _ & _ & _ & _ & -> & _).
    rewrite game_of_set_pool, game_of_set_game. auto.
  - unfold addHouseFunds in Hrun. bind_inv Hrun as pool Hpool.
    inversion Hrun. subst. auto.
  - apply withdrawHouseFunds_Ok in Hrun. destruct Hrun as (_ & -> & ->). auto.
Qed.

(** X17. [getGameStatus] of an address that sent no [startGame] in the
    history of the contract returns the zero record: no owner, no bet, empty
    arrays, inactive. *)
Theorem never_started_has_no_game (txs : list (Z * Call)) (who : Z) :
  Forall (fun tx => fst tx = who -> is_start (snd tx) = false) txs ->
  getGameStatus (run env deployed txs) who = no_game.
Proof.
  intros Htxs. unfold getGameStatus.
  assert (Hgen : forall st, game_of st who = no_game ->
                            game_of (run env st txs) who = no_game).
  { induction Htxs as [|[sender c] txs Hc _ IH]; intros st Hst; [exact Hst|].
    change (run env st ((sender, c) :: txs))
      with (run env (exec env st sender c) txs).
    apply IH. simpl in Hc.
    destruct (decide (sender = who)) as [->|Hne].
    - unfold exec.
      destruct (call env st who c) as [[st' effects]| | | |] eqn:Hrun; try exact Hst.
      cbn [fst].
      destruct c as [gas timestamp value numberOfMines|tileIndex| |value|];
        simpl in Hrun.
      + specialize (Hc eq_refl). discriminate.
      + apply revealTile_Ok in Hrun. cbv zeta in Hrun.
        destruct Hrun as (_ & Hact & _). rewrite Hst in Hact. discriminate.
      + apply cashOut_Ok in Hrun. cbv zeta in Hrun.
        destruct Hrun as (Hact & _). rewrite Hst in Hact. discriminate.
      + unfold addHouseFunds in Hrun. bind_inv Hrun as pool Hpool.
        inversion Hrun. subst. exact Hst.
      + apply withdrawHouseFunds_Ok in Hrun. destruct Hrun as (_ & -> & ->). exact Hst.
    - rewrite exec_other_record by congruence. exact Hst. }
  apply Hgen. reflexivity.
Qed.

End StartFacts.

(** * The front end against the contract *)

Section FrontEnd.

Variable env : Env.

(** X18. Let the status and the pool balance the front end has last read
    be those of the state a cash-out runs in (no transaction has changed them
    since the fetch). Whenever that cash-out returns, the profit the front
    end computed from them is never negative and never more than the
    winnings the contract realizes, so the payout computed from them is at
    most the payment made. The two agree when the pool holds twice the stake
    plus the theoretical winnings; when the pool holds less than twice the
    stake the front end shows no profit at all, because it takes the stake
    off the pool before comparing. *)
Theorem front_end_profit_is_cautious (st : State) (sender : Z)
        (status : Game) (poolBalance : Z) st' effects :
  reachable env st ->
  status = getGameStatus st sender ->
  poolBalance = getSharedPoolBalance st ->
  cashOut env st sender = Ok (st', effects) ->
  exists paid realized,
    effects = [Transfer sender paid; Emit (GameWon sender realized)] /\
    0 <= liveProfit status poolBalance <= realized /\
    expectedPayout status poolBalance <= paid /\
    (2 * betAmount status + calculateCurrentWinnings status <= poolBalance ->
     liveProfit status poolBalance = realized) /\
    (poolBalance < 2 * betAmount status -> liveProfit status poolBalance = 0).
Proof.
  intros Hreach -> -> Hrun.
  unfold getGameStatus, getSharedPoolBalance, expectedPayout.
  assert (Hshape := Hrun). apply cashOut_Ok in Hshape. cbv zeta in Hshape.
  destruct Hshape as (Hact & Hcnt & _).
  apply (cashOut_Ok_reachable env) in Hrun; [|assumption]. cbv zeta in Hrun.
  destruct Hrun as (theoretical & Hcalc & Hw0 & Hw10 & Hbet & _ & ->).
  assert (Hcur : calculateCurrentWinnings (game_of st sender) = theoretical).
  { unfold calculateCurrentWinnings.
    destruct (Z.eqb_spec (revealedSafeTiles (game_of st sender)) 0); [lia|].
    rewrite Hcalc. reflexivity. }
  eexists _, _. split; [reflexivity|].
  unfold liveProfit. rewrite Hact, Hcur. cbv zeta.
  destruct (Z.ltb_spec (sharedPoolBalance st - betAmount (game_of st sender))
                       (betAmount (game_of st sender) + theoretical));
    match goal with
    | |- context [if ?a <? 0 then _ else _] => destruct (Z.ltb_spec a 0)
    end; lia.
Qed.

End FrontEnd.

(** * The further properties at concrete inputs *)

Lemma reachable_five_safe_state : reachable local_node five_safe_state.
Proof.
  apply reachable_run; [apply reachable_deployed|]. well_typed_txs.
Qed.

Lemma reachable_topped_up_state : reachable local_node topped_up_state.
Proof.
  apply reachable_exec; [apply reachable_five_safe_state|].
  vm_compute. repeat split; discriminate.
Qed.

Lemma cashOut_topped_up_state :
  cashOut local_node topped_up_state alice
  = Ok (exec local_node topped_up_state alice CashOut,
        [Transfer alice 104; Emit (GameWon alice 4)]).
Proof. vm_compute. reflexivity. Qed.

Lemma revealTile_mine_started_state :
  revealTile started_state alice 24
  = Ok (lost_state, [Emit (TileRevealed alice 24 true); Emit (GameLost alice)]).
Proof. vm_compute. reflexivity. Qed.

(** [bob] draining the pool leaves the record of [alice] alone. *)
Lemma withdrawal_by_bob_keeps_record_of_alice :
  alice <> bob /\
  getGameStatus (exec local_node started_state bob WithdrawHouseFunds) alice
  = getGameStatus started_state alice.
Proof.
  assert (Hne : alice <> bob) by discriminate.
  split; [exact Hne|].
  exact (other_records_untouched local_node started_state bob WithdrawHouseFunds
           alice Hne).
Defined.

(** The cash-out of [alice] over a pool of 150 takes 104 out of it. *)
Lemma cash_out_of_104_leaves_46 :
  cashOut local_node topped_up_state alice
  = Ok (exec local_node topped_up_state alice CashOut,
        [Transfer alice 104; Emit (GameWon alice 4)]) /\
  sharedPoolBalance (exec local_node topped_up_state alice CashOut)
  = sharedPoolBalance topped_up_state + received CashOut
    - transferred [Transfer alice 104; Emit (GameWon alice 4)].
Proof.
  split; [exact cashOut_topped_up_state|].
  exact (proj1 (pool_tracks_value local_node topped_up_state alice CashOut _ _
                  cashOut_topped_up_state)).
Defined.

Lemma pool_of_insolvent_state_is_uint256 :
  reachable local_node insolvent_state /\
  0 <= getSharedPoolBalance insolvent_state <= uint256_max.
Proof.
  split; [exact reachable_insolvent_state|].
  exact (pool_stays_uint256 local_node insolvent_state reachable_insolvent_state).
Defined.

Lemma record_of_alice_is_well_formed :
  reachable local_node five_safe_state /\
  (getGameStatus five_safe_state alice = no_game \/
   played alice (getGameStatus five_safe_state alice)).
Proof.
  split; [exact reachable_five_safe_state|].
  exact (records_are_well_formed local_node five_safe_state alice
           reachable_five_safe_state).
Defined.

Lemma isActive_five_safe_state : isActive (game_of five_safe_state alice) = true.
Proof. vm_compute. reflexivity. Qed.

Lemma five_reveals_counted :
  (reachable local_node five_safe_state /\
   isActive (game_of five_safe_state alice) = true) /\
  revealedSafeTiles (game_of five_safe_state alice)
  = revealed_count (game_of five_safe_state alice).
Proof.
  split; [split; [exact reachable_five_safe_state | exact isActive_five_safe_state]|].
  exact (active_counter_counts_revealed local_node five_safe_state alice
           reachable_five_safe_state isActive_five_safe_state).
Defined.

Lemma counter_of_alice_at_most_22 :
  reachable local_node five_safe_state /\
  0 <= revealedSafeTiles (game_of five_safe_state alice)
    <= 25 - totalMines (game_of five_safe_state alice).
Proof.
  split; [exact reachable_five_safe_state|].
  exact (counter_at_most_safe_tiles local_node five_safe_state alice
           reachable_five_safe_state).
Defined.

Lemma cash_out_of_104_within_bounds :
  (reachable local_node topped_up_state /\
   cashOut local_node topped_up_state alice
   = Ok (exec local_node topped_up_state alice CashOut,
         [Transfer alice 104; Emit (GameWon alice 4)])) /\
  exists theoretical realized,
    [Transfer alice 104; Emit (GameWon alice 4)]
    = [Transfer alice (betAmount (game_of topped_up_state alice) + realized);
       Emit (GameWon alice realized)] /\
    realized = Z.min theoretical
                 (sharedPoolBalance topped_up_state
                  - betAmount (game_of topped_up_state alice)).
Proof.
  split; [split; [exact reachable_topped_up_state | exact cashOut_topped_up_state]|].
  destruct (cashOut_pays_within_bounds local_node topped_up_state alice _ _
              reachable_topped_up_state cashOut_topped_up_state)
    as (theoretical & realized & _ & Hmin & Heffects & _).
  exists theoretical, realized. split; assumption.
Defined.

Lemma second_cash_out_rejected :
  cashOut local_node topped_up_state alice
  = Ok (exec local_node topped_up_state alice CashOut,
        [Transfer alice 104; Emit (GameWon alice 4)]) /\
  cashOut local_node (exec local_node topped_up_state alice CashOut) alice
  = Revert "No active game".
Proof.
  split; [exact cashOut_topped_up_state|].
  exact (proj1 (cashOut_ends_the_game local_node topped_up_state alice _ _ cashOut_topped_up_state)).
Defined.

Lemma cash_out_after_mine_rejected :
  (revealTile started_state alice 24
   = Ok (lost_state, [Emit (TileRevealed alice 24 true); Emit (GameLost alice)]) /\
   Emit (GameLost alice) ∈ [Emit (TileRevealed alice 24 true); Emit (GameLost alice)]) /\
  isActive (game_of lost_state alice) = false /\
  cashOut local_node lost_state alice = Revert "No active game".
Proof.
  assert (Hlost : Emit (GameLost alice)
                  ∈ [Emit (TileRevealed alice 24 true); Emit (GameLost alice)])
    by (right; left).
  split; [split; [exact revealTile_mine_started_state | exact Hlost]|].
  exact (lost_game_cannot_cash_out local_node started_state alice 24 _ _
           revealTile_mine_started_state Hlost).
Defined.

Lemma winnings_of_five_tiles_at_most_a_tenth :
  (0 <= 100 /\ 0 <= 5 /\ calculateWinnings 100 3 5 = Ok 4) /\
  0 <= 4 /\ 10 * 4 <= 100.
Proof.
  split; [repeat split; lia|].
  apply (winnings_at_most_a_tenth 100 3 5 4); [lia | lia | reflexivity].
Defined.

Lemma NoDup_draws_quiet : NoDup (draws local_node quiet_timestamp alice (Z.to_nat 3)).
Proof.
  change (Z.to_nat 3) with 3%nat. rewrite draws_quiet.
  repeat (apply NoDup_cons; split;
          [intros Hin; repeat (apply elem_of_cons in Hin; destruct Hin as [Hin|Hin];
                               [discriminate|]); by apply elem_of_nil in Hin|]).
  apply NoDup_nil_2.
Qed.

(** The start of [alice] with three mines returns from some amount of gas
    on and runs out of gas below it. *)
Lemma start_of_alice_needs_enough_gas :
  (0 < 100 /\ 1 <= 3 <= 24 /\ isActive (game_of deployed alice) = false /\
   NoDup (draws local_node quiet_timestamp alice (Z.to_nat 3))) /\
  exists enough, forall gas,
    ((enough <= gas)%nat ->
     exists r, startGame local_node gas deployed quiet_timestamp alice 100 3 = Ok r) /\
    ((gas < enough)%nat ->
     startGame local_node gas deployed quiet_timestamp alice 100 3 = OutOfGas).
Proof.
  split; [repeat split; try lia; exact NoDup_draws_quiet|].
  destruct (startGame_valid_outcome local_node deployed quiet_timestamp alice 100 3
              ltac:(lia) ltac:(lia) eq_refl) as [_ Hdistinct].
  destruct (Hdistinct NoDup_draws_quiet) as [enough Hrun].
  exists enough. intros gas. rewrite Hrun. split; intros Hgas.
  - destruct (Nat.leb_spec enough gas); [|lia].
    rewrite bool_decide_eq_true_2 by (vm_compute; discriminate). eexists. reflexivity.
  - destruct (Nat.leb_spec enough gas); [lia|]. reflexivity.
Defined.

Lemma one_mine_start_of_bob :
  (0 < 7 /\ isActive (game_of started_state bob) = false /\
   sharedPoolBalance started_state + 7 <= uint256_max) /\
  exists enough, forall gas, (enough <= gas)%nat ->
    exists st',
      startGame local_node gas started_state colliding_timestamp bob 7 1
      = Ok (st', [Emit (GameStarted bob 7 1)]).
Proof.
  assert (Hact : isActive (game_of started_state bob) = false) by (vm_compute; reflexivity).
  assert (Hfit : sharedPoolBalance started_state + 7 <= uint256_max)
    by (vm_compute; discriminate).
  split; [repeat split; try lia; assumption|].
  destruct (startGame_one_mine_returns local_node started_state
              colliding_timestamp bob 7 ltac:(lia) Hact Hfit)
    as (enough & Hruns).
  exists enough. intros gas Hgas.
  destruct (Hruns gas Hgas) as (st' & Hrun & _). exists st'. exact Hrun.
Defined.

Lemma funds_of_alice_taken_by_bob :
  sharedPoolBalance deployed + 50 <= uint256_max /\
  exists st',
    call node_with_vault deployed alice (AddHouseFunds 50) = Ok (st', []) /\
    call node_with_vault st' bob WithdrawHouseFunds
    = Ok (set_pool deployed 0, [Transfer bob (sharedPoolBalance deployed + 50)]) /\
    call node_with_vault st' vault WithdrawHouseFunds = TransferFailed.
Proof.
  assert (Hfit : sharedPoolBalance deployed + 50 <= uint256_max)
    by (vm_compute; discriminate).
  split; [exact Hfit|].
  destruct (added_funds_can_be_withdrawn_by_anyone node_with_vault deployed alice bob 50 Hfit)
    as (st' & Hadd & _ & _ & Htake & _).
  destruct (added_funds_can_be_withdrawn_by_anyone node_with_vault deployed alice vault 50 Hfit)
    as (st'' & Hadd' & _ & _ & _ & Hrefused).
  exists st'. split; [exact Hadd|]. split; [exact (Htake eq_refl)|].
  assert (Hsame : st'' = st') by congruence. subst st''. exact (Hrefused eq_refl).
Defined.

Lemma stuck_cash_out_can_still_be_ended :
  (reachable local_node insolvent_state /\
   isActive (game_of insolvent_state alice) = true) /\
  exists tileIndex st' effects,
    0 <= tileIndex < 25 /\
    revealTile insolvent_state alice tileIndex = Ok (st', effects) /\
    isActive (game_of st' alice) = false.
Proof.
  assert (Hact : isActive (game_of insolvent_state alice) = true)
    by (vm_compute; reflexivity).
  split; [split; [exact reachable_insolvent_state | exact Hact]|].
  exact (active_game_can_be_ended local_node insolvent_state alice
           reachable_insolvent_state Hact).
Defined.

Lemma reveal_keeps_the_mines :
  (is_start (RevealTile 0) = false \/ alice <> alice) /\
  mineLocations (game_of (exec local_node started_state alice (RevealTile 0)) alice)
  = mineLocations (game_of started_state alice).
Proof.
  assert (Hc : is_start (RevealTile 0) = false \/ alice <> alice) by (left; reflexivity).
  split; [exact Hc|].
  destruct (record_fixed_between_starts local_node started_state alice
              (RevealTile 0) alice Hc) as (_ & _ & _ & Hmines & _).
  exact Hmines.
Defined.

Lemma bob_has_no_game :
  Forall (fun tx => fst tx = bob -> is_start (snd tx) = false) insolvent_txs /\
  getGameStatus insolvent_state bob = no_game.
Proof.
  assert (Htxs : Forall (fun tx => fst tx = bob -> is_start (snd tx) = false) insolvent_txs).
  { unfold insolvent_txs. cbn [reveals map app].
    repeat (apply Forall_cons_2; [intros Heq; discriminate Heq|]). apply Forall_nil_2. }
  split; [exact Htxs|].
  exact (never_started_has_no_game local_node insolvent_txs bob Htxs).
Defined.

Lemma front_end_shows_no_profit_over_pool_of_150 :
  (reachable local_node topped_up_state /\
   cashOut local_node topped_up_state alice
   = Ok (exec local_node topped_up_state alice CashOut,
         [Transfer alice 104; Emit (GameWon alice 4)])) /\
  liveProfit (getGameStatus topped_up_state alice) (getSharedPoolBalance topped_up_state) = 0 /\
  exists paid realized,
    [Transfer alice 104; Emit (GameWon alice 4)]
    = [Transfer alice paid; Emit (GameWon alice realized)] /\
    expectedPayout (getGameStatus topped_up_state alice)
                   (getSharedPoolBalance topped_up_state) <= paid.
Proof.
  split; [split; [exact reachable_topped_up_state | exact cashOut_topped_up_state]|].
  split; [vm_compute; reflexivity|].
  destruct (front_end_profit_is_cautious local_node topped_up_state alice _ _ _ _
              reachable_topped_up_state eq_refl eq_refl cashOut_topped_up_state)
    as (paid & realized & Heffects & _ & Hpay & _).
  exists paid, realized. split; assumption.
Defined.
